(** * The configurable curved screen: layout and UV slicing

    A shallow embedding of [src/curved-screen.ts], of the scene file
    [src/index.ts] that uses it, and of the first version of the UV mapper
    given in the build guide.

    JavaScript's [number] is modelled by the type [number] below: the
    finite values are the mathematical reals, to which the three
    non-finite values of IEEE-754 ([Infinity], [-Infinity], [NaN]) are
    added, with the arithmetic JavaScript gives them (so that a division
    by zero yields what the program would really see).  Two things are
    idealised in [number]: rounding (finite results are exact, never
    rounded to binary64, and never overflow), and the sign of zero
    ([Num 0] stands for [+0]; the program never builds [-0] from the
    integer segment indices and counts it works with).  So [number] gives
    the formulas the program evaluates, their signs, orders and ranges, and
    its behaviour at zero, [NaN] and the infinities.  It cannot tell whether
    two results that are rounded separately come out equal; where a
    statement turns on that, the arithmetic is taken up again on the
    kernel's binary64 floats, in [Binary64].  At an infinite argument
    [Math.atan] is exactly [+-PI/2] here, whose cosine is exactly 0, where
    binary64 has a cosine of about 6.1e-17; no statement uses that case. *)

From Stdlib Require Import Floats.
From Stdlib Require Import Reals Lia Lra String.
From stdpp Require Import base option list gmap.

Set Warnings "-inexact-float".

Local Open Scope R_scope.

(** ** JavaScript numbers *)

Inductive number : Type :=
| Num (r : R)
| PosInfinity
| NegInfinity
| NaN.

Declare Scope number_scope.
Delimit Scope number_scope with num.
Bind Scope number_scope with number.

Module JsNumber.

(** Unary minus. *)
Definition neg (a : number) : number :=
  match a with
  | Num r => Num (- r)
  | PosInfinity => NegInfinity
  | NegInfinity => PosInfinity
  | NaN => NaN
  end.

(** [a + b]: opposite infinities cancel to [NaN]. *)
Definition add (a b : number) : number :=
  match a, b with
  | NaN, _ | _, NaN => NaN
  | Num r, Num s => Num (r + s)
  | PosInfinity, NegInfinity | NegInfinity, PosInfinity => NaN
  | PosInfinity, _ | _, PosInfinity => PosInfinity
  | NegInfinity, _ | _, NegInfinity => NegInfinity
  end.

(** [a - b]. *)
Definition sub (a b : number) : number := add a (neg b).

(** The infinity whose sign is that of the finite factor [r];
    [0 * Infinity] is [NaN]. *)
Definition signed_infinity (r : R) (positive : bool) : number :=
  if Req_dec_T r 0 then NaN
  else if Rlt_dec 0 r
       then (if positive then PosInfinity else NegInfinity)
       else (if positive then NegInfinity else PosInfinity).

(** [a * b]. *)
Definition mul (a b : number) : number :=
  match a, b with
  | NaN, _ | _, NaN => NaN
  | Num r, Num s => Num (r * s)
  | Num r, PosInfinity | PosInfinity, Num r => signed_infinity r true
  | Num r, NegInfinity | NegInfinity, Num r => signed_infinity r false
  | PosInfinity, PosInfinity | NegInfinity, NegInfinity => PosInfinity
  | PosInfinity, NegInfinity | NegInfinity, PosInfinity => NegInfinity
  end.

(** [a / b].  A finite non-zero number over zero is an infinity of its
    sign, [0 / 0] is [NaN], a finite number over an infinity is zero, an
    infinity over an infinity is [NaN]. *)
Definition div (a b : number) : number :=
  match a, b with
  | NaN, _ | _, NaN => NaN
  | Num r, Num s =>
      if Req_dec_T s 0
      then (if Req_dec_T r 0 then NaN
            else if Rlt_dec 0 r then PosInfinity else NegInfinity)
      else Num (r / s)
  | Num _, PosInfinity | Num _, NegInfinity => Num 0
  | PosInfinity, Num s => if Rlt_dec s 0 then NegInfinity else PosInfinity
  | NegInfinity, Num s => if Rlt_dec s 0 then PosInfinity else NegInfinity
  | PosInfinity, _ | NegInfinity, _ => NaN
  end.

(** [a < b], false as soon as one side is [NaN]. *)
Definition lt (a b : number) : Prop :=
  match a, b with
  | NaN, _ | _, NaN => False
  | Num r, Num s => r < s
  | NegInfinity, Num _ | NegInfinity, PosInfinity | Num _, PosInfinity => True
  | _, _ => False
  end.

(** A finite value: neither [NaN] nor an infinity. *)
Definition isFinite (a : number) : Prop :=
  match a with Num _ => True | _ => False end.

End JsNumber.

Notation "- a" := (JsNumber.neg a) : number_scope.
Infix "+" := JsNumber.add : number_scope.
Infix "-" := JsNumber.sub : number_scope.
Infix "*" := JsNumber.mul : number_scope.
Infix "/" := JsNumber.div : number_scope.

(** The [Math] object: the two functions and the constant the program
    uses. *)
Module Math.

Definition PI : number := Num Rtrigo1.PI.

(** [Math.atan]: the limits at the infinities are [+-PI/2]. *)
Definition atan (a : number) : number :=
  match a with
  | Num r => Num (Ratan.atan r)
  | PosInfinity => Num (Rtrigo1.PI / 2)
  | NegInfinity => Num (- (Rtrigo1.PI / 2))
  | NaN => NaN
  end.

(** [Math.cos]: [NaN] at the infinities. *)
Definition cos (a : number) : number :=
  match a with
  | Num r => Num (Rtrigo_def.cos r)
  | _ => NaN
  end.

End Math.

(** ** The UV mapping function *)

(** [setUVsForSegment(segmentIndex, totalSegments)]: the UV coordinates
    of the six faces of a box, eight numbers a face. *)
Definition setUVsForSegment (segmentIndex totalSegments : number) : list number :=
  let reversedSegmentIndex := ((totalSegments - Num 1) - segmentIndex)%num in
  let uStart := (reversedSegmentIndex / totalSegments)%num in
  let uEnd := ((reversedSegmentIndex + Num 1) / totalSegments)%num in
  [ Num 0; Num 0; Num 0; Num 0; Num 0; Num 0; Num 0; Num 0;
    Num 0; Num 0; Num 0; Num 0; Num 0; Num 0; Num 0; Num 0;
    Num 0; Num 0; Num 0; Num 0; Num 0; Num 0; Num 0; Num 0;
    Num 0; Num 0; Num 0; Num 0; Num 0; Num 0; Num 0; Num 0;
    uEnd; Num 1;
    uStart; Num 1;
    uStart; Num 0;
    uEnd; Num 0;
    Num 0; Num 0; Num 0; Num 0; Num 0; Num 0; Num 0; Num 0 ].

(** ** The host engine

    The scene runtime ([@dcl/sdk]) is not part of the repository.  What
    the component does with it is kept as data: vectors are their three
    coordinates, a rotation is the triple of Euler angles (in degrees)
    handed to [Quaternion.fromEulerDegrees], and the engine is the table
    of the components created so far, one finite map an entity kind. *)

Module Vector3.
Record t : Type := create { x : number; y : number; z : number }.
End Vector3.

Module Quaternion.
Inductive t : Type := fromEulerDegrees (x y z : number).

Definition pitch (q : t) : number := let 'fromEulerDegrees a _ _ := q in a.
Definition yaw (q : t) : number := let 'fromEulerDegrees _ b _ := q in b.
Definition roll (q : t) : number := let 'fromEulerDegrees _ _ c := q in c.
End Quaternion.

Module Color3.
Record t : Type := create { r : number; g : number; b : number }.
Definition White : t := create (Num 1) (Num 1) (Num 1).
End Color3.

Definition Entity : Type := nat.

Inductive TextureUnion : Type :=
| Texture (src : string)
| AvatarTexture (userId : string)
| VideoTexture (videoPlayerEntity : Entity).

Record TransformType : Type := mkTransform {
  tf_parent : option Entity;
  tf_position : Vector3.t;
  tf_rotation : Quaternion.t;
  tf_scale : Vector3.t
}.

Record PbrMaterial : Type := mkPbrMaterial {
  texture : TextureUnion;
  roughness : number;
  specularIntensity : number;
  metallic : number;
  emissiveTexture : TextureUnion;
  emissiveIntensity : number;
  emissiveColor : Color3.t
}.

Record Engine : Type := mkEngine {
  nextEntity : Entity;
  transforms : gmap Entity TransformType;
  boxes : gmap Entity (list number);
  materials : gmap Entity PbrMaterial
}.

Module engine.
(** [engine.addEntity()]: a fresh entity. *)
Definition addEntity (e : Engine) : Entity * Engine :=
  (nextEntity e,
   mkEngine (S (nextEntity e)) (transforms e) (boxes e) (materials e)).
End engine.

Module Transform.
(** [Transform.create(entity, value)].  The component only ever gives a
    transform to an entity it has just made. *)
Definition create (ent : Entity) (v : TransformType) (e : Engine) : Engine :=
  mkEngine (nextEntity e) (<[ent := v]> (transforms e)) (boxes e) (materials e).
End Transform.

Module MeshRenderer.
(** [MeshRenderer.setBox(entity, uvs)] *)
Definition setBox (ent : Entity) (uvs : list number) (e : Engine) : Engine :=
  mkEngine (nextEntity e) (transforms e) (<[ent := uvs]> (boxes e)) (materials e).
End MeshRenderer.

Module Material.
(** [Material.setPbrMaterial(entity, material)] *)
Definition setPbrMaterial (ent : Entity) (m : PbrMaterial) (e : Engine) : Engine :=
  mkEngine (nextEntity e) (transforms e) (boxes e) (<[ent := m]> (materials e)).
End Material.

(** ** The component *)

Record CurvedScreenOptions : Type := mkOptions {
  position : Vector3.t;
  rotation : Quaternion.t;
  scale : Vector3.t;
  videoTexture : TextureUnion;
  curveFactor : option number
}.

(** What [calculateSegmentTransform] returns. *)
Record SegmentTransform : Type := mkSegmentTransform {
  st_position : Vector3.t;
  st_rotation : Quaternion.t;
  st_angle : number
}.

(** A loop counter or a segment count as a JavaScript number. *)
Definition ofNat (n : nat) : number := Num (INR n).

Section Blueprint.

(** The "internal blueprint specs" of [createCurvedScreen] and the
    resolved [curveFactor]: the names the closure
    [calculateSegmentTransform] and the creation loop capture. *)
Variable totalSegments : nat.
Variables screenWidth screenHeight : number.
Variable curveFactor' : number.

Definition calculateSegmentTransform (segmentIndex : number) : SegmentTransform :=
  let x := ((- screenWidth) / Num 2
            + (segmentIndex + Num 0.5) * (screenWidth / ofNat totalSegments))%num in
  let z := (curveFactor' * (x / screenWidth) * (x / screenWidth) * screenWidth)%num in
  let derivative := (Num 2 * curveFactor' * x / screenWidth)%num in
  let angle := Math.atan derivative in
  let rotationY := ((- angle) * (Num 180 / Math.PI))%num in
  {| st_position := Vector3.create x (Num 0) z;
     st_rotation := Quaternion.fromEulerDegrees (Num 0) rotationY (Num 0);
     st_angle := angle |}.

Variable options : CurvedScreenOptions.
Variable screenParent : Entity.

(** One turn of the creation loop, for the loop counter [i]. *)
Definition createSegment (i : nat) (e : Engine) : Engine :=
  let '(segmentEntity, e) := engine.addEntity e in
  let tr := calculateSegmentTransform (ofNat i) in
  let adjustedWidth :=
    ((screenWidth / ofNat totalSegments) / Math.cos (st_angle tr))%num in
  let e := Transform.create segmentEntity
             {| tf_parent := Some screenParent;
                tf_position := st_position tr;
                tf_rotation := st_rotation tr;
                tf_scale := Vector3.create adjustedWidth screenHeight (Num 0.1) |} e in
  let e := MeshRenderer.setBox segmentEntity
             (setUVsForSegment (ofNat i) (ofNat totalSegments)) e in
  Material.setPbrMaterial segmentEntity
    {| texture := videoTexture options;
       roughness := Num 1;
       specularIntensity := Num 0;
       metallic := Num 0;
       emissiveTexture := videoTexture options;
       emissiveIntensity := Num 1;
       emissiveColor := Color3.White |} e.

(** [for (let i = start; i < totalSegments; i++)], with [todo] turns
    left. *)
Fixpoint creationLoop (todo i : nat) (e : Engine) : Engine :=
  match todo with
  | O => e
  | S todo' => creationLoop todo' (S i) (createSegment i e)
  end.

End Blueprint.

(** [options.curveFactor ?? 0.3] *)
Definition resolveCurveFactor (options : CurvedScreenOptions) : number :=
  match curveFactor options with
  | Some c => c
  | None => Num 0.3
  end.

(** The body of [createCurvedScreen], for any blueprint. *)
Definition buildCurvedScreen (totalSegments : nat) (screenWidth screenHeight : number)
    (options : CurvedScreenOptions) (e : Engine) : Entity * Engine :=
  let curveFactor := resolveCurveFactor options in
  let '(screenParent, e) := engine.addEntity e in
  let e := Transform.create screenParent
             {| tf_parent := None;
                tf_position := position options;
                tf_rotation := rotation options;
                tf_scale := scale options |} e in
  let e := creationLoop totalSegments screenWidth screenHeight curveFactor
             options screenParent totalSegments 0 e in
  (screenParent, e).

(** [createCurvedScreen(options)]: 22 segments, 16 wide, 9 high. *)
Definition createCurvedScreen (options : CurvedScreenOptions) (e : Engine)
    : Entity * Engine :=
  buildCurvedScreen 22 (Num 16) (Num 9) options e.

(** ** Reading a UV list *)

(** The corners of a face: its numbers taken two by two. *)
Fixpoint corners (l : list number) : list (number * number) :=
  match l with
  | u :: v :: l' => (u, v) :: corners l'
  | _ => []
  end.

(** The four corners of face number [k] (from 0: Top, Bottom, Back,
    Front, Right, Left). *)
Definition face (k : nat) (uvs : list number) : list (number * number) :=
  corners (take 8 (drop (8 * k) uvs)).

(** The face that carries the picture: "Right", the fifth. *)
Definition visibleFace (uvs : list number) : list (number * number) := face 4 uvs.

(** The strip of the texture the visible face shows, as the interval of
    its [u] coordinates: from the [u] of the second corner to the [u] of
    the first. *)
Definition uRange (uvs : list number) : number * number :=
  (nth 34 uvs NaN, nth 32 uvs NaN).

(** [tiles a c l]: the intervals of [l], in this order, are non-empty,
    each starts where the one before ends, the first starts at [a] and
    the last ends at [c]. *)
Inductive tiles : number -> number -> list (number * number) -> Prop :=
| tiles_nil a : tiles a a []
| tiles_cons a b c l :
    JsNumber.lt a b -> tiles b c l -> tiles a c ((a, b) :: l).

(** ** How a call ends *)

(** A JavaScript call either returns a value or throws. *)
Inductive completion (A : Type) : Type :=
| Normal (value : A)
| Throw (message : string).
Arguments Normal {A} value.
Arguments Throw {A} message.

(** A call of [setUVsForSegment].  Its body has no [throw] and calls
    nothing, and arithmetic on numbers never raises in JavaScript: whatever
    the arguments, the call returns the array. *)
Definition call_setUVsForSegment (segmentIndex totalSegments : number)
    : completion (list number) :=
  Normal (setUVsForSegment segmentIndex totalSegments).

(** [approx tol a v]: the number [a] is finite and within [tol] of [v]. *)
Definition approx (tol : R) (a : number) (v : R) : Prop :=
  match a with
  | Num r => Rabs (r - v) <= tol
  | _ => False
  end.

(** ** The curve, over the reals

    The formulas of the layout as functions of real numbers, for the
    statements below: the centre of segment [i], the depth of the parabola
    and its slope there. *)

Definition centreX (n : nat) (W : R) (i : nat) : R :=
  - W / 2 + (INR i + 0.5) * (W / INR n).

Definition curveDepth (W cf x : R) : R := cf * (x / W) ^ 2 * W.

Definition curveSlope (W cf x : R) : R := 2 * cf * x / W.

(** The [Transform] the creation loop gives segment [i], under the parent
    [screenParent]. *)
Definition segmentTransform (totalSegments : nat) (screenWidth screenHeight : number)
    (curveFactor : number) (screenParent : Entity) (i : nat) : TransformType :=
  let tr := calculateSegmentTransform totalSegments screenWidth curveFactor (ofNat i) in
  {| tf_parent := Some screenParent;
     tf_position := st_position tr;
     tf_rotation := st_rotation tr;
     tf_scale :=
       Vector3.create
         ((screenWidth / ofNat totalSegments) / Math.cos (st_angle tr))%num
         screenHeight (Num 0.1) |}.

(** The entity of segment [i] of a screen whose parent is [screenParent]:
    the entities are made one after the other, the parent first. *)
Definition segmentEntityOf (screenParent : Entity) (i : nat) : Entity :=
  (S screenParent + i)%nat.

(** ** The build guide's first version of the UV mapper

    The build guide of the repository gives the mapper as it was before
    the two fixes that [src/curved-screen.ts] documents ("FIX 1", "FIX 2"):
    the strips are handed out in index order, and the corners of the
    visible face run from [uStart] to [uEnd]. *)

Module Guide.
Definition setUVsForSegment (segmentIndex totalSegments : number) : list number :=
  let uStart := (segmentIndex / totalSegments)%num in
  let uEnd := ((segmentIndex + Num 1) / totalSegments)%num in
  [ Num 0; Num 0; Num 0; Num 0; Num 0; Num 0; Num 0; Num 0;
    Num 0; Num 0; Num 0; Num 0; Num 0; Num 0; Num 0; Num 0;
    Num 0; Num 0; Num 0; Num 0; Num 0; Num 0; Num 0; Num 0;
    Num 0; Num 0; Num 0; Num 0; Num 0; Num 0; Num 0; Num 0;
    uStart; Num 1; uEnd; Num 1; uEnd; Num 0; uStart; Num 0;
    Num 0; Num 0; Num 0; Num 0; Num 0; Num 0; Num 0; Num 0 ].
End Guide.

(** A quad seen in a mirror: the two top corners change places, and so do
    the two bottom corners. *)
Definition mirrorQuad (q : list (number * number)) : list (number * number) :=
  match q with
  | [a; b; c; d] => [b; a; d; c]
  | _ => q
  end.

(** ** The scene file

    [src/index.ts] uses two more components of the host, kept here as two
    more tables beside the engine's. *)

Record PBVideoPlayer : Type := mkVideoPlayer {
  vp_src : string;
  vp_playing : bool;
  vp_loop : bool
}.

Record Scene : Type := mkScene {
  core : Engine;
  gltfContainers : gmap Entity string;
  videoPlayers : gmap Entity PBVideoPlayer
}.

(** An engine call, made on the scene. *)
Definition onEngine {A : Type} (f : Engine -> A * Engine) (s : Scene) : A * Scene :=
  let '(a, e) := f (core s) in
  (a, mkScene e (gltfContainers s) (videoPlayers s)).

Module GltfContainer.
(** [GltfContainer.create(entity, { src })] *)
Definition create (ent : Entity) (src : string) (s : Scene) : Scene :=
  mkScene (core s) (<[ent := src]> (gltfContainers s)) (videoPlayers s).
End GltfContainer.

Module VideoPlayer.
(** [VideoPlayer.create(entity, { src, playing, loop })] *)
Definition create (ent : Entity) (v : PBVideoPlayer) (s : Scene) : Scene :=
  mkScene (core s) (gltfContainers s) (<[ent := v]> (videoPlayers s)).
End VideoPlayer.

(** [Transform.create(entity)], with no value: the host's default
    transform, at the origin, not turned (the identity rotation, written
    with zero Euler angles), of scale one, without parent. *)
Definition defaultTransform : TransformType :=
  {| tf_parent := None;
     tf_position := Vector3.create (Num 0) (Num 0) (Num 0);
     tf_rotation := Quaternion.fromEulerDegrees (Num 0) (Num 0) (Num 0);
     tf_scale := Vector3.create (Num 1) (Num 1) (Num 1) |}.

Definition videoStreamUrl : string :=
  "https://player.vimeo.com/external/887766104.m3u8?s=ae3d36b03bdf2677371633c0f4fa0e6f71315925&logging=false".

(** The options [main] hands to [createCurvedScreen]. *)
Definition mainOptions (videoTexture : TextureUnion) : CurvedScreenOptions :=
  {| position := Vector3.create (Num 0.875) (Num 5.3) (Num 16);
     rotation := Quaternion.fromEulerDegrees (Num 0) (Num 90) (Num 0);
     scale := Vector3.create (Num 1) (Num 1) (Num 1);
     videoTexture := videoTexture;
     curveFactor := Some (Num 0.3) |}.

(** [main()] of [src/index.ts]. *)
Definition main (s : Scene) : Scene :=
  let '(sceneBase, s) := onEngine engine.addEntity s in
  let s := GltfContainer.create sceneBase "models/curved_screen.glb" s in
  let s := snd (onEngine (fun e => (tt, Transform.create sceneBase defaultTransform e)) s) in
  let '(videoPlayerEntity, s) := onEngine engine.addEntity s in
  let s := VideoPlayer.create videoPlayerEntity
             {| vp_src := videoStreamUrl; vp_playing := true; vp_loop := true |} s in
  let videoTexture := VideoTexture videoPlayerEntity in
  let s := snd (onEngine (createCurvedScreen (mainOptions videoTexture)) s) in
  let '(ground, s) := onEngine engine.addEntity s in
  let s := GltfContainer.create ground "models/ground_2x2.glb" s in
  snd (onEngine (fun e => (tt, Transform.create ground defaultTransform e)) s).

(** The engine as [main] hands it to [createCurvedScreen], and as it gets
    it back. *)
Definition engineBeforeScreen (s : Scene) : Engine :=
  mkEngine (S (S (nextEntity (core s))))
    (<[nextEntity (core s) := defaultTransform]> (transforms (core s)))
    (boxes (core s)) (materials (core s)).

Definition engineAfterScreen (s : Scene) : Engine :=
  snd (createCurvedScreen (mainOptions (VideoTexture (S (nextEntity (core s)))))
         (engineBeforeScreen s)).

(** ** The curve in binary64

    The arithmetic of [calculateSegmentTransform] (the lines that compute
    [x], [z] and [derivative]) once more, on the kernel's binary64 floats,
    which round every operation as JavaScript's numbers do.  It is used
    where a statement depends on rounding.  There is no binary64
    [Math.atan] or [Math.cos] here, so this version stops at the slope. *)

Module Binary64.



End Binary64.

(** ** What the statements talk about *)

(** No component is recorded for an entity the engine has not made yet. *)
Definition fresh_above (e : Engine) : Prop :=
  forall k : Entity, (nextEntity e <= k)%nat ->
    transforms e !! k = None /\ boxes e !! k = None /\ materials e !! k = None.

(** The material every segment is given. *)
Definition screenMaterial (options : CurvedScreenOptions) : PbrMaterial :=
  {| texture := videoTexture options;
     roughness := Num 1;
     specularIntensity := Num 0;
     metallic := Num 0;
     emissiveTexture := videoTexture options;
     emissiveIntensity := Num 1;
     emissiveColor := Color3.White |}.

(** A finite number between 0 and 1. *)
Definition inUnitInterval (a : number) : Prop :=
  match a with
  | Num r => 0 <= r <= 1
  | _ => False
  end.

(** ** Arithmetic on finite numbers *)

Lemma div_Num (r s : R) : s <> 0 -> (Num r / Num s)%num = Num (r / s).
Proof.
  intros Hs. unfold JsNumber.div.
  destruct (Req_dec_T s 0) as [E | _]; [contradiction | reflexivity].
Qed.

Lemma div_zero_zero : (Num 0 / Num 0)%num = NaN.
Proof.
  unfold JsNumber.div.
  destruct (Req_dec_T 0 0) as [_ | N]; [reflexivity | exfalso; apply N; reflexivity].
Qed.

Lemma div_neg_zero (r : R) : r < 0 -> (Num r / Num 0)%num = NegInfinity.
Proof.
  intros Hr. unfold JsNumber.div.
  destruct (Req_dec_T 0 0) as [_ | N]; [| exfalso; apply N; reflexivity].
  destruct (Req_dec_T r 0) as [E | _]; [lra |].
  destruct (Rlt_dec 0 r) as [P | _]; [lra | reflexivity].
Qed.

Lemma div_pos_zero (r : R) : 0 < r -> (Num r / Num 0)%num = PosInfinity.
Proof.
  intros Hr. unfold JsNumber.div.
  destruct (Req_dec_T 0 0) as [_ | N]; [| exfalso; apply N; reflexivity].
  destruct (Req_dec_T r 0) as [E | _]; [lra |].
  destruct (Rlt_dec 0 r) as [_ | P]; [reflexivity | lra].
Qed.

Lemma INR_pos_neq (n : nat) : (0 < n)%nat -> INR n <> 0.
Proof. intros H. apply not_0_INR. lia. Qed.

Lemma INR_pos (n : nat) : (0 < n)%nat -> 0 < INR n.
Proof. intros H. apply lt_0_INR. exact H. Qed.

(** The two slice bounds, for a positive count. *)
Lemma uRange_finite (i n : nat) :
  (0 < n)%nat ->
  uRange (setUVsForSegment (ofNat i) (ofNat n))
  = (Num ((INR n - 1 - INR i) / INR n), Num ((INR n - 1 - INR i + 1) / INR n)).
Proof.
  intros Hn. unfold uRange, setUVsForSegment, ofNat. cbn [nth].
  cbn [JsNumber.sub JsNumber.add JsNumber.neg].
  rewrite !div_Num by (apply INR_pos_neq; exact Hn).
  f_equal; f_equal; lra.
Qed.

(** The visible face, for a positive count. *)
Lemma visibleFace_finite (i n : nat) :
  (0 < n)%nat ->
  let uStart := (INR n - 1 - INR i) / INR n in
  let uEnd := (INR n - 1 - INR i + 1) / INR n in
  visibleFace (setUVsForSegment (ofNat i) (ofNat n))
  = [ (Num uEnd, Num 1); (Num uStart, Num 1); (Num uStart, Num 0); (Num uEnd, Num 0) ].
Proof.
  intros Hn. cbv zeta. unfold visibleFace, face, setUVsForSegment, ofNat.
  cbn [Nat.mul Nat.add drop take corners].
  cbn [JsNumber.sub JsNumber.add JsNumber.neg].
  rewrite !div_Num by (apply INR_pos_neq; exact Hn).
  replace (INR n + - (1) + - INR i) with (INR n - 1 - INR i) by lra.
  reflexivity.
Qed.

(** ** The UV mapper *)

(** C9: whatever the two arguments, [setUVsForSegment] returns 48 numbers,
    and the 40 of them that belong to the five faces other than the visible
    one (the first 32 and the last 8) are all 0: the arguments only reach
    the 8 numbers of the visible face. *)
Theorem setUVsForSegment_hidden_faces (segmentIndex totalSegments : number) :
  let uvs := setUVsForSegment segmentIndex totalSegments in
  length uvs = 48%nat
  /\ take 32 uvs = replicate 32 (Num 0)
  /\ drop 40 uvs = replicate 8 (Num 0)
  /\ face 0 uvs = replicate 4 (Num 0, Num 0)
  /\ face 1 uvs = replicate 4 (Num 0, Num 0)
  /\ face 2 uvs = replicate 4 (Num 0, Num 0)
  /\ face 3 uvs = replicate 4 (Num 0, Num 0)
  /\ face 5 uvs = replicate 4 (Num 0, Num 0).
Proof.
  cbv zeta. unfold setUVsForSegment, face. cbn.
  repeat split; reflexivity.
Qed.

(** C3: for a segment index [i] below the count [n], the mapper works out
    [reversedIndex = (n - 1) - i], [uStart = reversedIndex / n] and
    [uEnd = (reversedIndex + 1) / n], and gives the four corners of the
    visible face, in order, [(uEnd, 1)], [(uStart, 1)], [(uStart, 0)],
    [(uEnd, 0)]. *)
Theorem setUVsForSegment_visible_face (i n : nat) :
  (i < n)%nat ->
  let reversedIndex := INR (n - 1 - i) in
  let uStart := reversedIndex / INR n in
  let uEnd := (reversedIndex + 1) / INR n in
  visibleFace (setUVsForSegment (ofNat i) (ofNat n))
  = [ (Num uEnd, Num 1); (Num uStart, Num 1); (Num uStart, Num 0); (Num uEnd, Num 0) ].
Proof.
  intros Hi. cbv zeta.
  assert (Hn : INR n <> 0) by (apply INR_pos_neq; lia).
  assert (Hrev : INR (n - 1 - i) = INR n - 1 - INR i).
  { rewrite !minus_INR by lia. simpl. lra. }
  unfold visibleFace, face, setUVsForSegment, ofNat. cbn [Nat.mul Nat.add drop take corners].
  cbn [JsNumber.sub JsNumber.add JsNumber.neg].
  rewrite !div_Num by exact Hn.
  rewrite Hrev.
  replace (INR n + - (1) + - INR i) with (INR n - 1 - INR i) by lra.
  reflexivity.
Qed.

Lemma setUVsForSegment_visible_face_witness :
  (0 < 22)%nat /\
  visibleFace (setUVsForSegment (ofNat 0) (ofNat 22))
  = [ (Num ((INR (22 - 1 - 0) + 1) / INR 22), Num 1);
      (Num (INR (22 - 1 - 0) / INR 22), Num 1);
      (Num (INR (22 - 1 - 0) / INR 22), Num 0);
      (Num ((INR (22 - 1 - 0) + 1) / INR 22), Num 0) ].
Proof.
  split; [lia | apply (setUVsForSegment_visible_face 0 22); lia].
Defined.

(** The strips of the first [k] segments, from segment [k - 1] down to
    segment 0, fill the texture from [(n - k) / n] up to 1. *)
Lemma strips_tile_upper (n k : nat) :
  (0 < n)%nat -> (k <= n)%nat ->
  tiles (Num ((INR n - INR k) / INR n)) (Num 1)
    (map (fun i => uRange (setUVsForSegment (ofNat i) (ofNat n))) (reverse (seq 0 k))).
Proof.
  intros Hn. induction k as [| k IH]; intros Hk.
  - simpl. replace ((INR n - 0) / INR n) with 1.
    + apply tiles_nil.
    + field. apply INR_pos_neq; exact Hn.
  - rewrite seq_S, reverse_snoc. cbn [map Nat.add].
    rewrite uRange_finite by exact Hn.
    assert (Hpos : 0 < INR n) by (apply INR_pos; exact Hn).
    rewrite S_INR.
    replace ((INR n - (INR k + 1)) / INR n) with ((INR n - 1 - INR k) / INR n)
      by (f_equal; lra).
    apply tiles_cons.
    + cbn. unfold Rdiv. apply Rmult_lt_compat_r.
      * apply Rinv_0_lt_compat. exact Hpos.
      * lra.
    + replace ((INR n - 1 - INR k + 1) / INR n) with ((INR n - INR k) / INR n)
        by (f_equal; lra).
      apply IH. lia.
Qed.

(** C1: for a positive count [n], the strips of the [n] segments tile the
    texture: taken from the last segment to the first they are non-empty
    intervals that start at 0, each begin where the one before ends, and
    end at 1; and the [uStart] edge of segment [i] is the [uEnd] edge of
    segment [i + 1]. *)
Theorem uv_strips_tile_texture (n : nat) :
  (0 < n)%nat ->
  tiles (Num 0) (Num 1)
    (map (fun i => uRange (setUVsForSegment (ofNat i) (ofNat n))) (reverse (seq 0 n)))
  /\ (forall i : nat, (S i < n)%nat ->
        fst (uRange (setUVsForSegment (ofNat i) (ofNat n)))
        = snd (uRange (setUVsForSegment (ofNat (S i)) (ofNat n)))
        /\ JsNumber.isFinite (fst (uRange (setUVsForSegment (ofNat i) (ofNat n))))).
Proof.
  intros Hn. split.
  - replace 0 with ((INR n - INR n) / INR n).
    + apply strips_tile_upper; [exact Hn | lia].
    + field. apply INR_pos_neq; exact Hn.
  - intros i Hi. rewrite !uRange_finite by exact Hn. cbn [fst snd JsNumber.isFinite].
    split; [| exact I].
    f_equal. rewrite S_INR. f_equal. lra.
Qed.

Lemma uv_strips_tile_texture_witness :
  (0 < 22)%nat /\
  (tiles (Num 0) (Num 1)
     (map (fun i => uRange (setUVsForSegment (ofNat i) (ofNat 22))) (reverse (seq 0 22)))
   /\ (forall i : nat, (S i < 22)%nat ->
         fst (uRange (setUVsForSegment (ofNat i) (ofNat 22)))
         = snd (uRange (setUVsForSegment (ofNat (S i)) (ofNat 22)))
         /\ JsNumber.isFinite (fst (uRange (setUVsForSegment (ofNat i) (ofNat 22)))))).
Proof.
  split; [lia | apply (uv_strips_tile_texture 22); lia].
Defined.

(** ** The layout *)

(** [calculateSegmentTransform] on finite arguments, in closed form. *)
Lemma calculateSegmentTransform_finite (n : nat) (W cf : R) (i : nat) :
  (0 < n)%nat -> W <> 0 ->
  calculateSegmentTransform n (Num W) (Num cf) (ofNat i)
  = {| st_position :=
         Vector3.create (Num (centreX n W i)) (Num 0)
           (Num (curveDepth W cf (centreX n W i)));
       st_rotation :=
         Quaternion.fromEulerDegrees (Num 0)
           (Num (- atan (curveSlope W cf (centreX n W i)) * (180 / PI))) (Num 0);
       st_angle := Num (atan (curveSlope W cf (centreX n W i))) |}.
Proof.
  intros Hn HW.
  assert (Hn' : INR n <> 0) by (apply INR_pos_neq; exact Hn).
  assert (H2 : 2 <> 0) by lra.
  unfold calculateSegmentTransform, ofNat, Math.PI.
  repeat (cbn [JsNumber.neg JsNumber.add JsNumber.mul Math.atan];
          rewrite div_Num by first [exact HW | exact Hn' | exact H2 | apply PI_neq0]).
  cbn [JsNumber.neg JsNumber.add JsNumber.mul Math.atan].
  unfold curveDepth, curveSlope, centreX.
  f_equal. f_equal. f_equal. simpl. ring.
Qed.

(** C2: segment [i] of [n], on a screen of width [W] curved by [cf], is
    centred at [x = -W/2 + (i + 0.5) * (W / n)], [y = 0], at depth
    [z = cf * (x / W)^2 * W]; it is turned about the vertical axis only (no
    pitch, no roll), by minus the tangent angle [atan (2 * cf * x / W)]
    (handed to the host in degrees). *)
Theorem segment_layout (n : nat) (W cf : R) (i : nat) :
  (0 < n)%nat -> 0 < W -> (i < n)%nat ->
  let x := - W / 2 + (INR i + 0.5) * (W / INR n) in
  let z := cf * (x / W) ^ 2 * W in
  let angle := atan (2 * cf * x / W) in
  let tr := calculateSegmentTransform n (Num W) (Num cf) (ofNat i) in
  st_position tr = Vector3.create (Num x) (Num 0) (Num z)
  /\ st_angle tr = Num angle
  /\ st_rotation tr
     = Quaternion.fromEulerDegrees (Num 0) (Num (- angle * (180 / PI))) (Num 0).
Proof.
  intros Hn HW _. cbv zeta.
  rewrite calculateSegmentTransform_finite by (try exact Hn; lra).
  cbn [st_position st_angle st_rotation].
  unfold curveDepth, curveSlope, centreX. repeat split.
Qed.

Lemma segment_layout_witness :
  (0 < 22)%nat /\ 0 < 16 /\ (3 < 22)%nat /\
  let x := - 16 / 2 + (INR 3 + 0.5) * (16 / INR 22) in
  let z := 0.3 * (x / 16) ^ 2 * 16 in
  let angle := atan (2 * 0.3 * x / 16) in
  let tr := calculateSegmentTransform 22 (Num 16) (Num 0.3) (ofNat 3) in
  st_position tr = Vector3.create (Num x) (Num 0) (Num z)
  /\ st_angle tr = Num angle
  /\ st_rotation tr
     = Quaternion.fromEulerDegrees (Num 0) (Num (- angle * (180 / PI))) (Num 0).
Proof.
  split; [lia |]. split; [lra |]. split; [lia |].
  apply (segment_layout 22 16 0.3 3); [lia | lra | lia].
Defined.

(** ** The creation loop *)

Section Loop.

Variable n : nat.
Variables W H cf : number.
Variable options : CurvedScreenOptions.
Variable parent : Entity.

Lemma createSegment_nextEntity (i : nat) (e : Engine) :
  nextEntity (createSegment n W H cf options parent i e) = S (nextEntity e).
Proof. reflexivity. Qed.

Lemma createSegment_transforms (i : nat) (e : Engine) :
  transforms (createSegment n W H cf options parent i e)
  = <[nextEntity e := segmentTransform n W H cf parent i]> (transforms e).
Proof. reflexivity. Qed.

(** The loop leaves the entities that exist before it alone. *)
Lemma creationLoop_old (todo i : nat) (e : Engine) (k : Entity) :
  (k < nextEntity e)%nat ->
  transforms (creationLoop n W H cf options parent todo i e) !! k
  = transforms e !! k.
Proof.
  revert i e. induction todo as [| todo IH]; intros i e Hk; [reflexivity |].
  cbn [creationLoop]. rewrite IH.
  - rewrite createSegment_transforms. apply lookup_insert_ne. lia.
  - rewrite createSegment_nextEntity. lia.
Qed.

(** Turn [j] of the loop makes the entity [nextEntity e + j] and gives it
    the transform of segment [i + j]. *)
Lemma creationLoop_new (todo i : nat) (e : Engine) (j : nat) :
  (j < todo)%nat ->
  transforms (creationLoop n W H cf options parent todo i e) !! (nextEntity e + j)%nat
  = Some (segmentTransform n W H cf parent (i + j)).
Proof.
  revert i e j. induction todo as [| todo IH]; intros i e j Hj; [lia |].
  cbn [creationLoop]. destruct j as [| j].
  - rewrite creationLoop_old by (rewrite createSegment_nextEntity; lia).
    rewrite createSegment_transforms, !Nat.add_0_r.
    apply lookup_insert_eq.
  - replace (nextEntity e + S j)%nat
      with (nextEntity (createSegment n W H cf options parent i e) + j)%nat
      by (rewrite createSegment_nextEntity; lia).
    rewrite IH by lia. do 2 f_equal. lia.
Qed.

End Loop.

(** After [buildCurvedScreen], segment [i] carries its transform. *)
Lemma buildCurvedScreen_segment (n : nat) (W H : number)
    (options : CurvedScreenOptions) (e : Engine) (i : nat) :
  (i < n)%nat ->
  let out := buildCurvedScreen n W H options e in
  fst out = nextEntity e
  /\ transforms (snd out) !! segmentEntityOf (fst out) i
     = Some (segmentTransform n W H (resolveCurveFactor options) (fst out) i).
Proof.
  intros Hi. cbv zeta. unfold buildCurvedScreen, segmentEntityOf.
  cbn [engine.addEntity fst snd]. split; [reflexivity |].
  set (e1 := Transform.create _ _ _).
  change (S (nextEntity e)) with (nextEntity e1).
  rewrite creationLoop_new by exact Hi. reflexivity.
Qed.

(** The cosine of a tangent angle is positive and at most 1. *)
Lemma cos_atan_bounds (s : R) : 0 < cos (atan s) <= 1.
Proof.
  destruct (atan_bound s) as [Hlo Hhi]. split.
  - apply cos_gt_0; lra.
  - apply COS_bound.
Qed.

(** The width given to a segment, in closed form. *)
Lemma segmentTransform_scale (n : nat) (W H cf : R) (parent : Entity) (i : nat) :
  (0 < n)%nat -> W <> 0 ->
  tf_scale (segmentTransform n (Num W) (Num H) (Num cf) parent i)
  = Vector3.create
      (Num ((W / INR n) / cos (atan (curveSlope W cf (centreX n W i)))))
      (Num H) (Num 0.1).
Proof.
  intros Hn HW. unfold segmentTransform. cbn [tf_scale].
  rewrite calculateSegmentTransform_finite by assumption.
  cbn [st_angle Math.cos]. unfold ofNat.
  rewrite div_Num by (apply INR_pos_neq; exact Hn).
  rewrite div_Num; [reflexivity |].
  pose proof (cos_atan_bounds (curveSlope W cf (centreX n W i))). lra.
Qed.

(** C4: in the screen that is built, the scale of segment [i] is
    [(adjustedWidth, screenHeight, 0.1)] with
    [adjustedWidth = (screenWidth / totalSegments) / cos angle], [angle]
    being the tangent angle of the segment: the height is the screen's, and
    the depth is the constant 0.1, whatever [i] and [curveFactor]. *)
Theorem segment_scale (n : nat) (W H cf : R) (options : CurvedScreenOptions)
    (e : Engine) (i : nat) :
  (0 < n)%nat -> 0 < W -> (i < n)%nat ->
  resolveCurveFactor options = Num cf ->
  let out := buildCurvedScreen n (Num W) (Num H) options e in
  let x := - W / 2 + (INR i + 0.5) * (W / INR n) in
  let angle := atan (2 * cf * x / W) in
  exists t : TransformType,
    transforms (snd out) !! segmentEntityOf (fst out) i = Some t
    /\ st_angle (calculateSegmentTransform n (Num W) (Num cf) (ofNat i)) = Num angle
    /\ tf_scale t
       = Vector3.create (Num ((W / INR n) / cos angle)) (Num H) (Num 0.1).
Proof.
  intros Hn HW Hi Hcf. cbv zeta.
  destruct (buildCurvedScreen_segment n (Num W) (Num H) options e i Hi) as [_ Hseg].
  rewrite Hcf in Hseg.
  eexists. split; [exact Hseg |]. split.
  - rewrite calculateSegmentTransform_finite by (try exact Hn; lra). reflexivity.
  - rewrite segmentTransform_scale by (try exact Hn; lra). reflexivity.
Qed.

Lemma segment_scale_witness :
  let options :=
    mkOptions (Vector3.create (Num 0.875) (Num 5.3) (Num 16))
      (Quaternion.fromEulerDegrees (Num 0) (Num 90) (Num 0))
      (Vector3.create (Num 1) (Num 1) (Num 1))
      (VideoTexture 1%nat) (Some (Num 0.3)) in
  let e := mkEngine 2%nat ∅ ∅ ∅ in
  let out := createCurvedScreen options e in
  let x := - 16 / 2 + (INR 5 + 0.5) * (16 / INR 22) in
  let angle := atan (2 * 0.3 * x / 16) in
  exists t : TransformType,
    transforms (snd out) !! segmentEntityOf (fst out) 5 = Some t
    /\ st_angle (calculateSegmentTransform 22 (Num 16) (Num 0.3) (ofNat 5)) = Num angle
    /\ tf_scale t
       = Vector3.create (Num ((16 / INR 22) / cos angle)) (Num 9) (Num 0.1).
Proof.
  cbv zeta.
  apply (segment_scale 22 16 9 0.3 _ _ 5); [lia | lra | lia | reflexivity].
Defined.

(** C10: for every real [curveFactor], however large, and every segment,
    the tangent angle lies strictly between [-PI/2] and [PI/2], its cosine
    is strictly positive, and the adjusted width the segment is given is a
    finite number, [(screenWidth / totalSegments) / cos angle], strictly
    positive and at least the unadjusted width
    [screenWidth / totalSegments]. *)
Theorem adjusted_width_well_defined (n : nat) (W H cf : R)
    (options : CurvedScreenOptions) (e : Engine) (i : nat) :
  (0 < n)%nat -> 0 < W -> (i < n)%nat ->
  resolveCurveFactor options = Num cf ->
  let out := buildCurvedScreen n (Num W) (Num H) options e in
  exists (t : TransformType) (angle adjustedWidth : R),
    transforms (snd out) !! segmentEntityOf (fst out) i = Some t
    /\ st_angle (calculateSegmentTransform n (Num W) (Num cf) (ofNat i)) = Num angle
    /\ - PI / 2 < angle < PI / 2
    /\ 0 < cos angle
    /\ Vector3.x (tf_scale t) = Num adjustedWidth
    /\ adjustedWidth = (W / INR n) / cos angle
    /\ 0 < adjustedWidth
    /\ W / INR n <= adjustedWidth.
Proof.
  intros Hn HW Hi Hcf. cbv zeta.
  destruct (buildCurvedScreen_segment n (Num W) (Num H) options e i Hi) as [_ Hseg].
  rewrite Hcf in Hseg.
  set (s := curveSlope W cf (centreX n W i)).
  pose proof (cos_atan_bounds s) as [Hc0 Hc1].
  assert (Hu : 0 < W / INR n).
  { apply Rdiv_lt_0_compat; [exact HW | apply INR_pos; exact Hn]. }
  exists (segmentTransform n (Num W) (Num H) (Num cf) (fst (buildCurvedScreen n (Num W) (Num H) options e)) i),
    (atan s), ((W / INR n) / cos (atan s)).
  split; [exact Hseg |]. split.
  { rewrite calculateSegmentTransform_finite by (try exact Hn; lra). reflexivity. }
  split.
  { pose proof (atan_bound s). lra. }
  split; [exact Hc0 |]. split.
  { rewrite segmentTransform_scale by (try exact Hn; lra). reflexivity. }
  split; [reflexivity |]. split.
  { apply Rdiv_lt_0_compat; assumption. }
  apply Rmult_le_reg_r with (cos (atan s)); [exact Hc0 |].
  unfold Rdiv at 2. rewrite Rmult_assoc, Rinv_l, Rmult_1_r by lra.
  rewrite <- (Rmult_1_r (W / INR n)) at 2.
  apply Rmult_le_compat_l; lra.
Qed.

Lemma adjusted_width_well_defined_witness :
  let options :=
    mkOptions (Vector3.create (Num 0.875) (Num 5.3) (Num 16))
      (Quaternion.fromEulerDegrees (Num 0) (Num 90) (Num 0))
      (Vector3.create (Num 1) (Num 1) (Num 1))
      (VideoTexture 1%nat) (Some (Num 1000000)) in
  let e := mkEngine 2%nat ∅ ∅ ∅ in
  let out := createCurvedScreen options e in
  exists (t : TransformType) (angle adjustedWidth : R),
    transforms (snd out) !! segmentEntityOf (fst out) 21 = Some t
    /\ st_angle (calculateSegmentTransform 22 (Num 16) (Num 1000000) (ofNat 21))
       = Num angle
    /\ - PI / 2 < angle < PI / 2
    /\ 0 < cos angle
    /\ Vector3.x (tf_scale t) = Num adjustedWidth
    /\ adjustedWidth = (16 / INR 22) / cos angle
    /\ 0 < adjustedWidth
    /\ 16 / INR 22 <= adjustedWidth.
Proof.
  cbv zeta.
  apply (adjusted_width_well_defined 22 16 9 1000000 _ _ 21);
    [lia | lra | lia | reflexivity].
Defined.

(** ** The centre of the screen *)



Lemma curveSlope_opp (W cf x : R) : curveSlope W cf (- x) = - curveSlope W cf x.
Proof. unfold curveSlope, Rdiv. ring. Qed.


(** *** Signs in binary64 *)















(** ** The reference screen: 22 segments, 16 wide, curved by 0.3 *)

Lemma INR_22 : INR 22 = 22.
Proof. rewrite INR_IZR_INZ. reflexivity. Qed.

Lemma INR_11 : INR 11 = 11.
Proof. rewrite INR_IZR_INZ. reflexivity. Qed.

Lemma reference_first_position :
  st_position (calculateSegmentTransform 22 (Num 16) (Num 0.3) (ofNat 0))
  = Vector3.create (Num (- 84 / 11)) (Num 0) (Num (1323 / 1210)).
Proof.
  rewrite calculateSegmentTransform_finite by (try lia; lra).
  cbn [st_position].
  assert (Hx : centreX 22 16 0 = - 84 / 11).
  { unfold centreX. rewrite INR_22. simpl (INR 0). lra. }
  rewrite Hx. unfold curveDepth. do 2 f_equal. lra.
Qed.

Lemma reference_twelfth_position :
  st_position (calculateSegmentTransform 22 (Num 16) (Num 0.3) (ofNat 11))
  = Vector3.create (Num (4 / 11)) (Num 0) (Num (3 / 1210)).
Proof.
  rewrite calculateSegmentTransform_finite by (try lia; lra).
  cbn [st_position].
  assert (Hx : centreX 22 16 11 = 4 / 11).
  { unfold centreX. rewrite INR_22, INR_11. lra. }
  rewrite Hx. unfold curveDepth. do 2 f_equal. lra.
Qed.


(** C8 fails as it is written: on the reference screen the depth of
    segment 0 is 1323/1210, about 1.093, and is not 0.655, even to within
    0.4. *)
Lemma reference_first_depth_not_0655 :
  ~ approx 0.4
      (Vector3.z (st_position (calculateSegmentTransform 22 (Num 16) (Num 0.3) (ofNat 0))))
      0.655.
Proof.
  rewrite reference_first_position. cbn [Vector3.z approx].
  intros E. pose proof (Rle_abs (1323 / 1210 - 0.655)). lra.
Qed.

(** C8, with the values the code computes: on the reference screen
    segment 0 is at [x = -84/11 = -7.636...] and depth
    [z = 1323/1210], about 1.093; segment 11 is at [x = 4/11], about
    0.364, and depth [z = 3/1210], about 0.0025; the strip of segment 0 has
    [reversedIndex = 21], [uStart = 21/22], about 0.9545, and
    [uEnd = 1]. *)
Theorem reference_screen_values :
  let first := calculateSegmentTransform 22 (Num 16) (Num 0.3) (ofNat 0) in
  let twelfth := calculateSegmentTransform 22 (Num 16) (Num 0.3) (ofNat 11) in
  st_position first = Vector3.create (Num (- 84 / 11)) (Num 0) (Num (1323 / 1210))
  /\ approx 0.0005 (Vector3.x (st_position first)) (- 7.636)
  /\ approx 0.0005 (Vector3.z (st_position first)) 1.093
  /\ st_position twelfth = Vector3.create (Num (4 / 11)) (Num 0) (Num (3 / 1210))
  /\ approx 0.0005 (Vector3.x (st_position twelfth)) 0.364
  /\ approx 0.00005 (Vector3.z (st_position twelfth)) 0.0025
  /\ visibleFace (setUVsForSegment (ofNat 0) (ofNat 22))
     = [ (Num 1, Num 1); (Num (21 / 22), Num 1); (Num (21 / 22), Num 0); (Num 1, Num 0) ]
  /\ uRange (setUVsForSegment (ofNat 0) (ofNat 22)) = (Num (21 / 22), Num 1)
  /\ approx 0.00005 (Num (21 / 22)) 0.9545.
Proof.
  cbv zeta. rewrite reference_first_position, reference_twelfth_position.
  cbn [Vector3.x Vector3.z approx].
  assert (Hrange : uRange (setUVsForSegment (ofNat 0) (ofNat 22)) = (Num (21 / 22), Num 1)).
  { rewrite uRange_finite by lia. rewrite INR_22. simpl (INR 0).
    f_equal; f_equal; lra. }
  repeat split; try (apply Rabs_le; lra).
  - rewrite visibleFace_finite by lia. rewrite INR_22. simpl (INR 0).
    replace ((22 - 1 - 0 + 1) / 22) with 1 by lra.
    replace ((22 - 1 - 0) / 22) with (21 / 22) by lra.
    reflexivity.
  - exact Hrange.
Qed.

(** ** Degenerate counts *)

(** The strip bounds when the count is 0: the divisions by zero give
    [-Infinity], and [NaN] for [0 / 0]. *)
Lemma visibleFace_zero_total (i : nat) :
  visibleFace (setUVsForSegment (ofNat i) (ofNat 0))
  = let uEnd := if Nat.eqb i 0 then NaN else NegInfinity in
    [ (uEnd, Num 1); (NegInfinity, Num 1); (NegInfinity, Num 0); (uEnd, Num 0) ].
Proof.
  unfold visibleFace, face, setUVsForSegment, ofNat.
  cbn [Nat.mul Nat.add drop take corners].
  cbn [JsNumber.sub JsNumber.add JsNumber.neg INR].
  pose proof (pos_INR i) as Hi.
  rewrite (div_neg_zero (0 + - (1) + - INR i)) by lra.
  destruct i as [| i].
  - cbn [Nat.eqb INR].
    replace (0 + - (1) + - 0 + 1) with 0 by lra.
    rewrite div_zero_zero. reflexivity.
  - cbn [Nat.eqb]. rewrite S_INR in *. pose proof (pos_INR i).
    rewrite (div_neg_zero (0 + - (1) + - (INR i + 1) + 1)) by lra.
    reflexivity.
Qed.

(** C7 fails: called with [totalSegments = 0] (and [segmentIndex = 0]),
    [setUVsForSegment] does not throw; it returns the 48 numbers, with
    [NaN] and [-Infinity] on the visible face. *)
Lemma setUVsForSegment_zero_total_returns :
  call_setUVsForSegment (Num 0) (Num 0)
  = Normal (replicate 32 (Num 0)
            ++ [ NaN; Num 1; NegInfinity; Num 1; NegInfinity; Num 0; NaN; Num 0 ]
            ++ replicate 8 (Num 0))
  /\ ~ (exists message : string,
          call_setUVsForSegment (Num 0) (Num 0) = Throw message).
Proof.
  split.
  - unfold call_setUVsForSegment, setUVsForSegment.
    cbn [JsNumber.sub JsNumber.add JsNumber.neg].
    rewrite (div_neg_zero (0 + - (1) + - 0)) by lra.
    replace (0 + - (1) + - 0 + 1) with 0 by lra.
    rewrite div_zero_zero. reflexivity.
  - intros [message E]. discriminate E.
Qed.

(** C7, as the code has it: the count is validated nowhere and no error
    is signalled.  [setUVsForSegment] returns its 48 numbers for every
    pair of arguments; with [totalSegments = 0] the [u] coordinates of the
    visible face are not finite ([uStart] is [-Infinity]; [uEnd] is [NaN]
    for segment 0 and [-Infinity] for the others); and the creation loop
    run for a count of 0 makes no segment: the screen is its parent
    entity alone. *)
Theorem degenerate_count_is_not_rejected :
  (forall segmentIndex totalSegments : number,
     exists uvs : list number,
       call_setUVsForSegment segmentIndex totalSegments = Normal uvs
       /\ length uvs = 48%nat)
  /\ (forall i : nat,
        visibleFace (setUVsForSegment (ofNat i) (ofNat 0))
        = let uEnd := if Nat.eqb i 0 then NaN else NegInfinity in
          [ (uEnd, Num 1); (NegInfinity, Num 1); (NegInfinity, Num 0); (uEnd, Num 0) ])
  /\ (forall (W H : number) (options : CurvedScreenOptions) (e : Engine),
        buildCurvedScreen 0 W H options e
        = (nextEntity e,
           mkEngine (S (nextEntity e))
             (<[nextEntity e :=
                  mkTransform None (position options) (rotation options) (scale options)]>
                (transforms e))
             (boxes e) (materials e))).
Proof.
  split; [| split].
  - intros segmentIndex totalSegments. eexists. split; reflexivity.
  - exact visibleFace_zero_total.
  - intros W H options e. reflexivity.
Qed.

(** ** The screen as a whole *)

Section Stores.

Variable n : nat.
Variables W H cf : number.
Variable options : CurvedScreenOptions.
Variable parent : Entity.

Lemma createSegment_boxes (i : nat) (e : Engine) :
  boxes (createSegment n W H cf options parent i e)
  = <[nextEntity e := setUVsForSegment (ofNat i) (ofNat n)]> (boxes e).
Proof. reflexivity. Qed.

Lemma createSegment_materials (i : nat) (e : Engine) :
  materials (createSegment n W H cf options parent i e)
  = <[nextEntity e := screenMaterial options]> (materials e).
Proof. reflexivity. Qed.

Lemma creationLoop_nextEntity (todo i : nat) (e : Engine) :
  nextEntity (creationLoop n W H cf options parent todo i e)
  = (nextEntity e + todo)%nat.
Proof.
  revert i e. induction todo as [| todo IH]; intros i e; cbn [creationLoop].
  - lia.
  - rewrite IH, createSegment_nextEntity. lia.
Qed.

(** The loop writes no mesh and no material on an entity that is not one
    of its own. *)
Lemma creationLoop_boxes_other (todo i : nat) (e : Engine) (k : Entity) :
  (k < nextEntity e \/ nextEntity e + todo <= k)%nat ->
  boxes (creationLoop n W H cf options parent todo i e) !! k = boxes e !! k.
Proof.
  revert i e. induction todo as [| todo IH]; intros i e Hk; [reflexivity |].
  cbn [creationLoop]. rewrite IH.
  - rewrite createSegment_boxes. apply lookup_insert_ne. lia.
  - rewrite createSegment_nextEntity. lia.
Qed.

Lemma creationLoop_materials_other (todo i : nat) (e : Engine) (k : Entity) :
  (k < nextEntity e \/ nextEntity e + todo <= k)%nat ->
  materials (creationLoop n W H cf options parent todo i e) !! k = materials e !! k.
Proof.
  revert i e. induction todo as [| todo IH]; intros i e Hk; [reflexivity |].
  cbn [creationLoop]. rewrite IH.
  - rewrite createSegment_materials. apply lookup_insert_ne. lia.
  - rewrite createSegment_nextEntity. lia.
Qed.

Lemma creationLoop_transforms_other (todo i : nat) (e : Engine) (k : Entity) :
  (k < nextEntity e \/ nextEntity e + todo <= k)%nat ->
  transforms (creationLoop n W H cf options parent todo i e) !! k = transforms e !! k.
Proof.
  revert i e. induction todo as [| todo IH]; intros i e Hk; [reflexivity |].
  cbn [creationLoop]. rewrite IH.
  - rewrite createSegment_transforms. apply lookup_insert_ne. lia.
  - rewrite createSegment_nextEntity. lia.
Qed.

Lemma creationLoop_boxes_new (todo i : nat) (e : Engine) (j : nat) :
  (j < todo)%nat ->
  boxes (creationLoop n W H cf options parent todo i e) !! (nextEntity e + j)%nat
  = Some (setUVsForSegment (ofNat (i + j)) (ofNat n)).
Proof.
  revert i e j. induction todo as [| todo IH]; intros i e j Hj; [lia |].
  cbn [creationLoop]. destruct j as [| j].
  - rewrite creationLoop_boxes_other by (rewrite createSegment_nextEntity; lia).
    rewrite createSegment_boxes, !Nat.add_0_r. apply lookup_insert_eq.
  - replace (nextEntity e + S j)%nat
      with (nextEntity (createSegment n W H cf options parent i e) + j)%nat
      by (rewrite createSegment_nextEntity; lia).
    rewrite IH by lia. do 3 f_equal. lia.
Qed.

Lemma creationLoop_materials_new (todo i : nat) (e : Engine) (j : nat) :
  (j < todo)%nat ->
  materials (creationLoop n W H cf options parent todo i e) !! (nextEntity e + j)%nat
  = Some (screenMaterial options).
Proof.
  revert i e j. induction todo as [| todo IH]; intros i e j Hj; [lia |].
  cbn [creationLoop]. destruct j as [| j].
  - rewrite creationLoop_materials_other by (rewrite createSegment_nextEntity; lia).
    rewrite createSegment_materials, !Nat.add_0_r. apply lookup_insert_eq.
  - replace (nextEntity e + S j)%nat
      with (nextEntity (createSegment n W H cf options parent i e) + j)%nat
      by (rewrite createSegment_nextEntity; lia).
    rewrite IH by lia. reflexivity.
Qed.

End Stores.

(** The engine after [buildCurvedScreen], store by store. *)
Lemma buildCurvedScreen_unfold (n : nat) (W H : number)
    (options : CurvedScreenOptions) (e : Engine) :
  buildCurvedScreen n W H options e
  = (nextEntity e,
     creationLoop n W H (resolveCurveFactor options) options (nextEntity e) n 0
       (mkEngine (S (nextEntity e))
          (<[nextEntity e :=
               mkTransform None (position options) (rotation options) (scale options)]>
             (transforms e))
          (boxes e) (materials e))).
Proof. reflexivity. Qed.

(** X1: building a screen of [n] segments makes [n + 1] new entities, the
    parent first (it is the entity returned), and changes no component of an
    entity that existed before. *)
Theorem buildCurvedScreen_frame (n : nat) (W H : number)
    (options : CurvedScreenOptions) (e : Engine) :
  let out := buildCurvedScreen n W H options e in
  fst out = nextEntity e
  /\ nextEntity (snd out) = (nextEntity e + n + 1)%nat
  /\ forall k : Entity, (k < nextEntity e)%nat ->
       transforms (snd out) !! k = transforms e !! k
       /\ boxes (snd out) !! k = boxes e !! k
       /\ materials (snd out) !! k = materials e !! k.
Proof.
  cbv zeta. rewrite buildCurvedScreen_unfold. cbn [fst snd].
  split; [reflexivity |]. split.
  - rewrite creationLoop_nextEntity. cbn [nextEntity]. lia.
  - intros k Hk. repeat split.
    + rewrite creationLoop_transforms_other by (cbn [nextEntity]; lia).
      cbn [transforms]. apply lookup_insert_ne. lia.
    + rewrite creationLoop_boxes_other by (cbn [nextEntity]; lia). reflexivity.
    + rewrite creationLoop_materials_other by (cbn [nextEntity]; lia). reflexivity.
Qed.

Lemma buildCurvedScreen_nextEntity (n : nat) (W H : number)
    (options : CurvedScreenOptions) (e : Engine) :
  nextEntity (snd (buildCurvedScreen n W H options e)) = (nextEntity e + n + 1)%nat.
Proof.
  rewrite buildCurvedScreen_unfold. cbn [snd].
  rewrite creationLoop_nextEntity. cbn [nextEntity]. lia.
Qed.

Lemma buildCurvedScreen_parent_transform (n : nat) (W H : number)
    (options : CurvedScreenOptions) (e : Engine) :
  transforms (snd (buildCurvedScreen n W H options e)) !! nextEntity e
  = Some (mkTransform None (position options) (rotation options) (scale options)).
Proof.
  rewrite buildCurvedScreen_unfold. cbn [snd].
  rewrite creationLoop_transforms_other by (cbn [nextEntity]; lia).
  cbn [transforms]. apply lookup_insert_eq.
Qed.

(** Outside the segments of the new screen, meshes and materials are what
    they were. *)
Lemma buildCurvedScreen_boxes_other (n : nat) (W H : number)
    (options : CurvedScreenOptions) (e : Engine) (k : Entity) :
  (k <= nextEntity e \/ nextEntity e + n + 1 <= k)%nat ->
  boxes (snd (buildCurvedScreen n W H options e)) !! k = boxes e !! k.
Proof.
  intros Hk. rewrite buildCurvedScreen_unfold. cbn [snd].
  rewrite creationLoop_boxes_other by (cbn [nextEntity]; lia). reflexivity.
Qed.

Lemma buildCurvedScreen_materials_other (n : nat) (W H : number)
    (options : CurvedScreenOptions) (e : Engine) (k : Entity) :
  (k <= nextEntity e \/ nextEntity e + n + 1 <= k)%nat ->
  materials (snd (buildCurvedScreen n W H options e)) !! k = materials e !! k.
Proof.
  intros Hk. rewrite buildCurvedScreen_unfold. cbn [snd].
  rewrite creationLoop_materials_other by (cbn [nextEntity]; lia). reflexivity.
Qed.

Lemma buildCurvedScreen_transforms_other (n : nat) (W H : number)
    (options : CurvedScreenOptions) (e : Engine) (k : Entity) :
  (k < nextEntity e \/ nextEntity e + n + 1 <= k)%nat ->
  transforms (snd (buildCurvedScreen n W H options e)) !! k = transforms e !! k.
Proof.
  intros Hk. rewrite buildCurvedScreen_unfold. cbn [snd].
  rewrite creationLoop_transforms_other by (cbn [nextEntity]; lia).
  cbn [transforms]. apply lookup_insert_ne. lia.
Qed.

Lemma buildCurvedScreen_segment_box (n : nat) (W H : number)
    (options : CurvedScreenOptions) (e : Engine) (i : nat) :
  (i < n)%nat ->
  boxes (snd (buildCurvedScreen n W H options e)) !! segmentEntityOf (nextEntity e) i
  = Some (setUVsForSegment (ofNat i) (ofNat n)).
Proof.
  intros Hi. rewrite buildCurvedScreen_unfold. cbn [snd]. unfold segmentEntityOf.
  set (e1 := mkEngine _ _ _ _).
  change (S (nextEntity e)) with (nextEntity e1).
  rewrite creationLoop_boxes_new by exact Hi. reflexivity.
Qed.

Lemma buildCurvedScreen_segment_material (n : nat) (W H : number)
    (options : CurvedScreenOptions) (e : Engine) (i : nat) :
  (i < n)%nat ->
  materials (snd (buildCurvedScreen n W H options e)) !! segmentEntityOf (nextEntity e) i
  = Some (screenMaterial options).
Proof.
  intros Hi. rewrite buildCurvedScreen_unfold. cbn [snd]. unfold segmentEntityOf.
  set (e1 := mkEngine _ _ _ _).
  change (S (nextEntity e)) with (nextEntity e1).
  rewrite creationLoop_materials_new by exact Hi. reflexivity.
Qed.

Lemma buildCurvedScreen_segment_transform (n : nat) (W H : number)
    (options : CurvedScreenOptions) (e : Engine) (i : nat) :
  (i < n)%nat ->
  transforms (snd (buildCurvedScreen n W H options e)) !! segmentEntityOf (nextEntity e) i
  = Some (segmentTransform n W H (resolveCurveFactor options) (nextEntity e) i).
Proof.
  intros Hi.
  destruct (buildCurvedScreen_segment n W H options e i Hi) as [Hp Hs].
  rewrite Hp in Hs. exact Hs.
Qed.

(** X2: the screen is one group.  The entity returned carries the position,
    rotation and scale of the options and has no parent; each of the [n]
    segments is a child of it. *)
Theorem screen_is_one_group (n : nat) (W H : number)
    (options : CurvedScreenOptions) (e : Engine) (i : nat) :
  (i < n)%nat ->
  let out := buildCurvedScreen n W H options e in
  transforms (snd out) !! fst out
  = Some (mkTransform None (position options) (rotation options) (scale options))
  /\ exists t : TransformType,
       transforms (snd out) !! segmentEntityOf (fst out) i = Some t
       /\ tf_parent t = Some (fst out).
Proof.
  intros Hi. cbv zeta.
  replace (fst (buildCurvedScreen n W H options e)) with (nextEntity e) by reflexivity.
  split; [apply buildCurvedScreen_parent_transform |].
  eexists. split; [apply buildCurvedScreen_segment_transform; exact Hi | reflexivity].
Qed.

Lemma screen_is_one_group_witness :
  let options := mainOptions (VideoTexture 1%nat) in
  let out := createCurvedScreen options (mkEngine 2%nat ∅ ∅ ∅) in
  transforms (snd out) !! fst out
  = Some (mkTransform None (position options) (rotation options) (scale options))
  /\ exists t : TransformType,
       transforms (snd out) !! segmentEntityOf (fst out) 21 = Some t
       /\ tf_parent t = Some (fst out).
Proof.
  cbv zeta. apply (screen_is_one_group 22 (Num 16) (Num 9) _ _ 21). lia.
Defined.

(** X3: each segment [i] is a box whose UVs are
    [setUVsForSegment(i, totalSegments)], and all segments have the same
    material, which shows the texture of the options both as texture and as
    emissive texture, without reflections.  If nothing was recorded for
    entities not yet made, the parent itself has neither mesh nor material:
    it is invisible. *)
Theorem segments_show_the_texture (n : nat) (W H : number)
    (options : CurvedScreenOptions) (e : Engine) (i : nat) :
  (i < n)%nat -> fresh_above e ->
  let out := buildCurvedScreen n W H options e in
  boxes (snd out) !! segmentEntityOf (fst out) i
  = Some (setUVsForSegment (ofNat i) (ofNat n))
  /\ materials (snd out) !! segmentEntityOf (fst out) i
     = Some (mkPbrMaterial (videoTexture options) (Num 1) (Num 0) (Num 0)
               (videoTexture options) (Num 1) Color3.White)
  /\ boxes (snd out) !! fst out = None
  /\ materials (snd out) !! fst out = None.
Proof.
  intros Hi Hfresh. cbv zeta.
  replace (fst (buildCurvedScreen n W H options e)) with (nextEntity e) by reflexivity.
  destruct (Hfresh (nextEntity e) (le_n _)) as (_ & Hb & Hm).
  split; [apply buildCurvedScreen_segment_box; exact Hi |].
  split; [apply buildCurvedScreen_segment_material; exact Hi |].
  split.
  - rewrite buildCurvedScreen_boxes_other by lia. exact Hb.
  - rewrite buildCurvedScreen_materials_other by lia. exact Hm.
Qed.

Lemma fresh_above_empty (k : Entity) : fresh_above (mkEngine k ∅ ∅ ∅).
Proof. intros j _. cbn. rewrite !lookup_empty. auto. Qed.

Lemma segments_show_the_texture_witness :
  let options := mainOptions (VideoTexture 1%nat) in
  let out := createCurvedScreen options (mkEngine 2%nat ∅ ∅ ∅) in
  boxes (snd out) !! segmentEntityOf (fst out) 0
  = Some (setUVsForSegment (ofNat 0) (ofNat 22))
  /\ materials (snd out) !! segmentEntityOf (fst out) 0
     = Some (mkPbrMaterial (VideoTexture 1%nat) (Num 1) (Num 0) (Num 0)
               (VideoTexture 1%nat) (Num 1) Color3.White)
  /\ boxes (snd out) !! fst out = None
  /\ materials (snd out) !! fst out = None.
Proof.
  cbv zeta.
  apply (segments_show_the_texture 22 (Num 16) (Num 9)
           (mainOptions (VideoTexture 1%nat)) (mkEngine 2%nat ∅ ∅ ∅) 0);
    [lia | apply fresh_above_empty].
Defined.

(** X4: the build keeps the engine tidy: if no component was recorded for
    an entity not yet made, the same holds afterwards. *)
Theorem buildCurvedScreen_keeps_fresh (n : nat) (W H : number)
    (options : CurvedScreenOptions) (e : Engine) :
  fresh_above e -> fresh_above (snd (buildCurvedScreen n W H options e)).
Proof.
  intros Hfresh k Hk. rewrite buildCurvedScreen_nextEntity in Hk.
  destruct (Hfresh k ltac:(lia)) as (Ht & Hb & Hm).
  rewrite buildCurvedScreen_transforms_other, buildCurvedScreen_boxes_other,
    buildCurvedScreen_materials_other by lia.
  auto.
Qed.

Lemma buildCurvedScreen_keeps_fresh_witness :
  fresh_above (snd (createCurvedScreen (mainOptions (VideoTexture 1%nat))
                      (mkEngine 2%nat ∅ ∅ ∅))).
Proof.
  apply (buildCurvedScreen_keeps_fresh 22 (Num 16) (Num 9)).
  apply fresh_above_empty.
Defined.

(** X5: two screens built one after the other do not disturb each other.
    The second takes the next [n' + 1] entities, and afterwards segment [i]
    of the first screen still has its transform, its box and its material,
    while segment [j] of the second has its own. *)
Theorem two_screens_side_by_side (n n' : nat) (W H W' H' : number)
    (o o' : CurvedScreenOptions) (e : Engine) (i j : nat) :
  (i < n)%nat -> (j < n')%nat ->
  let first := buildCurvedScreen n W H o e in
  let second := buildCurvedScreen n' W' H' o' (snd first) in
  fst second = (fst first + n + 1)%nat
  /\ transforms (snd second) !! fst first
     = Some (mkTransform None (position o) (rotation o) (scale o))
  /\ transforms (snd second) !! segmentEntityOf (fst first) i
     = Some (segmentTransform n W H (resolveCurveFactor o) (fst first) i)
  /\ boxes (snd second) !! segmentEntityOf (fst first) i
     = Some (setUVsForSegment (ofNat i) (ofNat n))
  /\ materials (snd second) !! segmentEntityOf (fst first) i
     = Some (screenMaterial o)
  /\ transforms (snd second) !! segmentEntityOf (fst second) j
     = Some (segmentTransform n' W' H' (resolveCurveFactor o') (fst second) j)
  /\ boxes (snd second) !! segmentEntityOf (fst second) j
     = Some (setUVsForSegment (ofNat j) (ofNat n'))
  /\ materials (snd second) !! segmentEntityOf (fst second) j
     = Some (screenMaterial o').
Proof.
  intros Hi Hj. cbv zeta.
  set (e1 := snd (buildCurvedScreen n W H o e)).
  replace (fst (buildCurvedScreen n W H o e)) with (nextEntity e) by reflexivity.
  replace (fst (buildCurvedScreen n' W' H' o' e1)) with (nextEntity e1) by reflexivity.
  assert (Hnext : nextEntity e1 = (nextEntity e + n + 1)%nat)
    by apply buildCurvedScreen_nextEntity.
  split; [exact Hnext |].
  split.
  { rewrite buildCurvedScreen_transforms_other by lia.
    apply buildCurvedScreen_parent_transform. }
  split.
  { rewrite buildCurvedScreen_transforms_other by (unfold segmentEntityOf; lia).
    apply buildCurvedScreen_segment_transform. exact Hi. }
  split.
  { rewrite buildCurvedScreen_boxes_other by (unfold segmentEntityOf; lia).
    apply buildCurvedScreen_segment_box. exact Hi. }
  split.
  { rewrite buildCurvedScreen_materials_other by (unfold segmentEntityOf; lia).
    apply buildCurvedScreen_segment_material. exact Hi. }
  split; [apply buildCurvedScreen_segment_transform; exact Hj |].
  split; [apply buildCurvedScreen_segment_box; exact Hj |].
  apply buildCurvedScreen_segment_material; exact Hj.
Qed.

Lemma two_screens_side_by_side_witness :
  let o := mainOptions (VideoTexture 1%nat) in
  let o' := mkOptions (Vector3.create (Num 8) (Num 5.2) (Num 8))
              (Quaternion.fromEulerDegrees (Num 0) (Num 0) (Num 0))
              (Vector3.create (Num 1) (Num 1) (Num 1))
              (VideoTexture 1%nat) None in
  let first := createCurvedScreen o (mkEngine 2%nat ∅ ∅ ∅) in
  let second := createCurvedScreen o' (snd first) in
  fst second = (fst first + 22 + 1)%nat
  /\ transforms (snd second) !! fst first
     = Some (mkTransform None (position o) (rotation o) (scale o))
  /\ transforms (snd second) !! segmentEntityOf (fst first) 21
     = Some (segmentTransform 22 (Num 16) (Num 9) (resolveCurveFactor o) (fst first) 21)
  /\ boxes (snd second) !! segmentEntityOf (fst first) 21
     = Some (setUVsForSegment (ofNat 21) (ofNat 22))
  /\ materials (snd second) !! segmentEntityOf (fst first) 21
     = Some (screenMaterial o)
  /\ transforms (snd second) !! segmentEntityOf (fst second) 0
     = Some (segmentTransform 22 (Num 16) (Num 9) (resolveCurveFactor o') (fst second) 0)
  /\ boxes (snd second) !! segmentEntityOf (fst second) 0
     = Some (setUVsForSegment (ofNat 0) (ofNat 22))
  /\ materials (snd second) !! segmentEntityOf (fst second) 0
     = Some (screenMaterial o').
Proof.
  cbv zeta.
  apply (two_screens_side_by_side 22 22 (Num 16) (Num 9) (Num 16) (Num 9)
           (mainOptions (VideoTexture 1%nat))
           (mkOptions (Vector3.create (Num 8) (Num 5.2) (Num 8))
              (Quaternion.fromEulerDegrees (Num 0) (Num 0) (Num 0))
              (Vector3.create (Num 1) (Num 1) (Num 1))
              (VideoTexture 1%nat) None)
           (mkEngine 2%nat ∅ ∅ ∅) 21 0); lia.
Defined.

(** The meshes after a build, entity by entity. *)
Lemma buildCurvedScreen_boxes_lookup (n : nat) (W H : number)
    (options : CurvedScreenOptions) (e : Engine) (k : Entity) :
  boxes (snd (buildCurvedScreen n W H options e)) !! k
  = if decide (nextEntity e < k /\ k <= nextEntity e + n)%nat
    then Some (setUVsForSegment (ofNat (k - S (nextEntity e))) (ofNat n))
    else boxes e !! k.
Proof.
  destruct (decide _) as [[Hlo Hhi] | Hout].
  - replace k with (segmentEntityOf (nextEntity e) (k - S (nextEntity e)))
      at 1 by (unfold segmentEntityOf; lia).
    apply buildCurvedScreen_segment_box. lia.
  - apply buildCurvedScreen_boxes_other. lia.
Qed.

Lemma buildCurvedScreen_materials_lookup (n : nat) (W H : number)
    (options : CurvedScreenOptions) (e : Engine) (k : Entity) :
  materials (snd (buildCurvedScreen n W H options e)) !! k
  = if decide (nextEntity e < k /\ k <= nextEntity e + n)%nat
    then Some (screenMaterial options)
    else materials e !! k.
Proof.
  destruct (decide _) as [[Hlo Hhi] | Hout].
  - replace k with (segmentEntityOf (nextEntity e) (k - S (nextEntity e)))
      by (unfold segmentEntityOf; lia).
    apply buildCurvedScreen_segment_material. lia.
  - apply buildCurvedScreen_materials_other. lia.
Qed.

(** X6: what the options do not reach.  The meshes of the screen depend on
    the number of segments only, not on the options nor on the width and
    height; the materials depend on the texture only.  In particular
    turning the [curveFactor] knob, or moving the screen, changes neither. *)
Theorem meshes_and_materials_ignore_the_curve (n : nat) (W H W' H' : number)
    (o o' : CurvedScreenOptions) (e : Engine) :
  videoTexture o = videoTexture o' ->
  boxes (snd (buildCurvedScreen n W H o e)) = boxes (snd (buildCurvedScreen n W' H' o' e))
  /\ materials (snd (buildCurvedScreen n W H o e))
     = materials (snd (buildCurvedScreen n W' H' o' e))
  /\ nextEntity (snd (buildCurvedScreen n W H o e))
     = nextEntity (snd (buildCurvedScreen n W' H' o' e)).
Proof.
  intros Htex. split; [| split].
  - apply map_eq. intros k. rewrite !buildCurvedScreen_boxes_lookup. reflexivity.
  - apply map_eq. intros k. rewrite !buildCurvedScreen_materials_lookup.
    unfold screenMaterial. rewrite Htex. reflexivity.
  - rewrite !buildCurvedScreen_nextEntity. reflexivity.
Qed.

Lemma meshes_and_materials_ignore_the_curve_witness :
  let o := mkOptions (Vector3.create (Num 0.875) (Num 5.3) (Num 16))
             (Quaternion.fromEulerDegrees (Num 0) (Num 90) (Num 0))
             (Vector3.create (Num 1) (Num 1) (Num 1))
             (VideoTexture 1%nat) (Some (Num 0.3)) in
  let o' := mkOptions (Vector3.create (Num 8) (Num 5.2) (Num 8))
              (Quaternion.fromEulerDegrees (Num 0) (Num 0) (Num 0))
              (Vector3.create (Num 1) (Num 1) (Num 1))
              (VideoTexture 1%nat) (Some (Num 0.4)) in
  let e := mkEngine 2%nat ∅ ∅ ∅ in
  boxes (snd (buildCurvedScreen 22 (Num 16) (Num 9) o e))
  = boxes (snd (buildCurvedScreen 22 (Num 14) (Num 7.875) o' e))
  /\ materials (snd (buildCurvedScreen 22 (Num 16) (Num 9) o e))
     = materials (snd (buildCurvedScreen 22 (Num 14) (Num 7.875) o' e))
  /\ nextEntity (snd (buildCurvedScreen 22 (Num 16) (Num 9) o e))
     = nextEntity (snd (buildCurvedScreen 22 (Num 14) (Num 7.875) o' e)).
Proof.
  cbv zeta.
  apply (meshes_and_materials_ignore_the_curve 22 (Num 16) (Num 9) (Num 14) (Num 7.875)).
  reflexivity.
Defined.

(** X7: the position, rotation and scale of the options reach the parent
    only.  Two builds whose options agree on the curve factor give every
    segment the same local transform, whatever the two group poses and
    textures. *)
Theorem group_pose_reaches_parent_only (n : nat) (W H : number)
    (o o' : CurvedScreenOptions) (e : Engine) (i : nat) :
  (i < n)%nat ->
  resolveCurveFactor o = resolveCurveFactor o' ->
  let out := buildCurvedScreen n W H o e in
  let out' := buildCurvedScreen n W H o' e in
  fst out = fst out'
  /\ transforms (snd out) !! segmentEntityOf (fst out) i
     = transforms (snd out') !! segmentEntityOf (fst out') i
  /\ is_Some (transforms (snd out) !! segmentEntityOf (fst out) i).
Proof.
  intros Hi Hcf. cbv zeta.
  replace (fst (buildCurvedScreen n W H o e)) with (nextEntity e) by reflexivity.
  replace (fst (buildCurvedScreen n W H o' e)) with (nextEntity e) by reflexivity.
  rewrite !buildCurvedScreen_segment_transform by exact Hi.
  rewrite Hcf. split; [reflexivity |]. split; [reflexivity | eexists; reflexivity].
Qed.

Lemma group_pose_reaches_parent_only_witness :
  let o := mkOptions (Vector3.create (Num 0.875) (Num 5.3) (Num 16))
             (Quaternion.fromEulerDegrees (Num 0) (Num 90) (Num 0))
             (Vector3.create (Num 1) (Num 1) (Num 1))
             (VideoTexture 1%nat) (Some (Num 0.3)) in
  let o' := mkOptions (Vector3.create (Num 8) (Num 5.2) (Num 8))
              (Quaternion.fromEulerDegrees (Num 0) (Num 0) (Num 0))
              (Vector3.create (Num 2) (Num 2) (Num 2))
              (Texture "screen.png") None in
  let out := createCurvedScreen o (mkEngine 2%nat ∅ ∅ ∅) in
  let out' := createCurvedScreen o' (mkEngine 2%nat ∅ ∅ ∅) in
  fst out = fst out'
  /\ transforms (snd out) !! segmentEntityOf (fst out) 7
     = transforms (snd out') !! segmentEntityOf (fst out') 7
  /\ is_Some (transforms (snd out) !! segmentEntityOf (fst out) 7).
Proof.
  cbv zeta.
  apply (group_pose_reaches_parent_only 22 (Num 16) (Num 9) _ _ _ 7); [lia | reflexivity].
Defined.

(** ** The shape of the curve *)

Lemma centreX_mirror (n : nat) (W : R) (i : nat) :
  (i < n)%nat -> centreX n W (n - 1 - i) = - centreX n W i.
Proof.
  intros Hi. unfold centreX. rewrite !minus_INR by lia. simpl (INR 1).
  assert (INR n <> 0) by (apply INR_pos_neq; lia).
  replace 0.5 with (1 / 2) by lra. field. assumption.
Qed.

Lemma centreX_mirror_of_first (n : nat) (W : R) :
  (0 < n)%nat -> centreX n W (n - 1) = - centreX n W 0.
Proof.
  intros Hn. pose proof (centreX_mirror n W 0 Hn) as Hm.
  replace (n - 1 - 0)%nat with (n - 1)%nat in Hm by lia. exact Hm.
Qed.

Lemma curveDepth_alt (W cf x : R) : W <> 0 -> curveDepth W cf x = cf * (x * x) / W.
Proof. intros HW. unfold curveDepth. field. exact HW. Qed.

(** The centres lie between the centre of segment 0 and its mirror
    image. *)
Lemma centreX_between (n : nat) (W : R) (i : nat) :
  (i < n)%nat -> 0 < W ->
  - W / 2 < centreX n W 0 <= centreX n W i
  /\ centreX n W i <= - centreX n W 0
  /\ centreX n W 0 <= 0.
Proof.
  intros Hi HW.
  assert (Hn : 0 < INR n) by (apply INR_pos; lia).
  assert (Hw : 0 < W / INR n) by (apply Rdiv_lt_0_compat; assumption).
  assert (HnW : INR n * (W / INR n) = W) by (field; lra).
  assert (Hi0 : 0 <= INR i) by apply pos_INR.
  assert (Hi1 : INR i + 1 <= INR n).
  { rewrite <- S_INR. apply le_INR. lia. }
  assert (H1n : 1 <= INR n).
  { replace 1 with (INR 1) by reflexivity. apply le_INR. lia. }
  unfold centreX. simpl (INR 0). replace 0.5 with (1 / 2) by lra.
  set (w := W / INR n) in *.
  assert (0 <= INR i * w) by (apply Rmult_le_pos; lra).
  assert (INR i * w + w <= W).
  { rewrite <- HnW. replace (INR i * w + w) with ((INR i + 1) * w) by ring.
    apply Rmult_le_compat_r; lra. }
  assert (w <= W).
  { rewrite <- HnW. rewrite <- (Rmult_1_l w) at 1. apply Rmult_le_compat_r; lra. }
  repeat split; lra.
Qed.

(** X8: the segments run from left to right inside the width.  The centre
    of each segment lies strictly to the right of the centre of the one
    before; the first centre is right of the left edge [-W/2] and the last
    is left of the right edge [W/2]. *)
Theorem centres_run_left_to_right (n : nat) (W cf : R) (i : nat) :
  (S i < n)%nat -> 0 < W ->
  exists x x' first last : R,
    Vector3.x (st_position (calculateSegmentTransform n (Num W) (Num cf) (ofNat i)))
    = Num x
    /\ Vector3.x (st_position (calculateSegmentTransform n (Num W) (Num cf) (ofNat (S i))))
       = Num x'
    /\ Vector3.x (st_position (calculateSegmentTransform n (Num W) (Num cf) (ofNat 0)))
       = Num first
    /\ Vector3.x (st_position
                    (calculateSegmentTransform n (Num W) (Num cf) (ofNat (n - 1))))
       = Num last
    /\ - W / 2 < first /\ first <= x /\ x < x' /\ x' <= last /\ last < W / 2.
Proof.
  intros Hi HW.
  assert (Hn : (0 < n)%nat) by lia.
  assert (Hstep : 0 < W / INR n).
  { apply Rdiv_lt_0_compat; [exact HW | apply INR_pos; exact Hn]. }
  exists (centreX n W i), (centreX n W (S i)), (centreX n W 0), (centreX n W (n - 1)).
  rewrite !calculateSegmentTransform_finite by (try exact Hn; lra).
  cbn [st_position Vector3.x].
  assert (Hd : centreX n W (S i) - centreX n W i = W / INR n).
  { unfold centreX. rewrite S_INR. lra. }
  destruct (centreX_between n W i ltac:(lia) HW) as ((Hlo & Hle) & _ & _).
  destruct (centreX_between n W (S i) Hi HW) as (_ & Hhi & _).
  assert (Hlast : centreX n W (n - 1) = - centreX n W 0).
  { pose proof (centreX_mirror_of_first n W Hn) as Hm. exact Hm. }
  rewrite Hlast.
  repeat split; lra.
Qed.

Lemma centres_run_left_to_right_witness :
  exists x x' first last : R,
    Vector3.x (st_position (calculateSegmentTransform 22 (Num 16) (Num 0.3) (ofNat 20)))
    = Num x
    /\ Vector3.x (st_position
                    (calculateSegmentTransform 22 (Num 16) (Num 0.3) (ofNat (S 20))))
       = Num x'
    /\ Vector3.x (st_position (calculateSegmentTransform 22 (Num 16) (Num 0.3) (ofNat 0)))
       = Num first
    /\ Vector3.x (st_position
                    (calculateSegmentTransform 22 (Num 16) (Num 0.3) (ofNat (22 - 1))))
       = Num last
    /\ - 16 / 2 < first /\ first <= x /\ x < x' /\ x' <= last /\ last < 16 / 2.
Proof.
  apply (centres_run_left_to_right 22 16 0.3 20); [lia | lra].
Defined.

(** The centres of the left half are left of the middle. *)
Lemma centreX_left_half (n : nat) (W : R) (i : nat) :
  (2 * i + 1 < n)%nat -> 0 < W -> centreX n W i < 0.
Proof.
  intros Hi HW.
  assert (Hn : 0 < INR n) by (apply INR_pos; lia).
  assert (Hlt : 2 * INR i + 1 < INR n).
  { replace (2 * INR i + 1) with (INR (2 * i + 1)).
    - apply lt_INR. exact Hi.
    - rewrite plus_INR, mult_INR. simpl. lra. }
  assert (Hw : 0 < W / INR n) by (apply Rdiv_lt_0_compat; assumption).
  assert (HnW : INR n * (W / INR n) = W) by (field; lra).
  unfold centreX. replace 0.5 with (1 / 2) by lra.
  set (w := W / INR n) in *.
  assert ((2 * INR i + 1) * w < INR n * w) by (apply Rmult_lt_compat_r; lra).
  lra.
Qed.

(** X9: the two halves of the screen turn towards each other.  For a
    curve factor that is not negative, a segment of the left half is at a
    negative [x] and is never turned the other way: its tangent angle is
    not positive and its yaw not negative; its counterpart [n - 1 - i] in
    the right half is at a positive [x], with a tangent angle that is not
    negative and a yaw that is not positive. *)
Theorem halves_turn_towards_each_other (n : nat) (W cf : R) (i : nat) :
  (2 * i + 1 < n)%nat -> 0 < W -> 0 <= cf ->
  let left := calculateSegmentTransform n (Num W) (Num cf) (ofNat i) in
  let right := calculateSegmentTransform n (Num W) (Num cf) (ofNat (n - 1 - i)) in
  exists xl al yl xr ar yr : R,
    Vector3.x (st_position left) = Num xl /\ xl < 0
    /\ st_angle left = Num al /\ al <= 0
    /\ Quaternion.yaw (st_rotation left) = Num yl /\ 0 <= yl
    /\ Vector3.x (st_position right) = Num xr /\ 0 < xr
    /\ st_angle right = Num ar /\ 0 <= ar
    /\ Quaternion.yaw (st_rotation right) = Num yr /\ yr <= 0.
Proof.
  intros Hi HW Hcf. cbv zeta.
  assert (Hn : (0 < n)%nat) by lia.
  assert (HW' : W <> 0) by lra.
  rewrite !calculateSegmentTransform_finite by assumption.
  rewrite centreX_mirror by lia.
  rewrite curveSlope_opp, atan_opp.
  pose proof (centreX_left_half n W i Hi HW) as Hx.
  set (x := centreX n W i) in *.
  assert (Hs : curveSlope W cf x <= 0).
  { unfold curveSlope, Rdiv.
    assert (Hinv : 0 < / W) by (apply Rinv_0_lt_compat; exact HW).
    assert (Hneg : 2 * cf * x <= 0) by nra.
    replace 0 with (0 * / W) by ring. apply Rmult_le_compat_r; lra. }
  assert (Ha : atan (curveSlope W cf x) <= 0).
  { destruct Hs as [Hs | Hs].
    - left. rewrite <- atan_0. apply atan_increasing. exact Hs.
    - rewrite Hs, atan_0. lra. }
  assert (Hk : 0 < 180 / PI).
  { apply Rdiv_lt_0_compat; [lra | apply PI_RGT_0]. }
  cbn [st_position st_angle st_rotation Quaternion.yaw Vector3.x].
  do 6 eexists. repeat split; try reflexivity; try lra; nra.
Qed.

Lemma halves_turn_towards_each_other_witness :
  let left := calculateSegmentTransform 22 (Num 16) (Num 0.3) (ofNat 3) in
  let right := calculateSegmentTransform 22 (Num 16) (Num 0.3) (ofNat (22 - 1 - 3)) in
  exists xl al yl xr ar yr : R,
    Vector3.x (st_position left) = Num xl /\ xl < 0
    /\ st_angle left = Num al /\ al <= 0
    /\ Quaternion.yaw (st_rotation left) = Num yl /\ 0 <= yl
    /\ Vector3.x (st_position right) = Num xr /\ 0 < xr
    /\ st_angle right = Num ar /\ 0 <= ar
    /\ Quaternion.yaw (st_rotation right) = Num yr /\ yr <= 0.
Proof.
  apply (halves_turn_towards_each_other 22 16 0.3 3); [lia | lra | lra].
Defined.

(** X10: with [curveFactor = 0] the screen is flat.  Every segment stays in
    the plane [z = 0], is not turned, and keeps the unadjusted width
    [W / n]. *)
Theorem zero_curve_is_flat (n : nat) (W H : R) (options : CurvedScreenOptions)
    (e : Engine) (i : nat) :
  (i < n)%nat -> 0 < W ->
  resolveCurveFactor options = Num 0 ->
  let out := buildCurvedScreen n (Num W) (Num H) options e in
  transforms (snd out) !! segmentEntityOf (fst out) i
  = Some {| tf_parent := Some (fst out);
            tf_position :=
              Vector3.create (Num (- W / 2 + (INR i + 0.5) * (W / INR n))) (Num 0) (Num 0);
            tf_rotation := Quaternion.fromEulerDegrees (Num 0) (Num 0) (Num 0);
            tf_scale := Vector3.create (Num (W / INR n)) (Num H) (Num 0.1) |}.
Proof.
  intros Hi HW Hcf. cbv zeta.
  assert (Hn : (0 < n)%nat) by lia.
  assert (HW' : W <> 0) by lra.
  replace (fst (buildCurvedScreen n (Num W) (Num H) options e)) with (nextEntity e)
    by reflexivity.
  rewrite buildCurvedScreen_segment_transform by exact Hi.
  rewrite Hcf.
  pose proof (segmentTransform_scale n W H 0 (nextEntity e) i Hn HW') as Hscale.
  unfold segmentTransform in *. cbn [tf_scale] in Hscale. rewrite Hscale.
  rewrite calculateSegmentTransform_finite by assumption.
  cbn [st_position st_rotation].
  replace (curveSlope W 0 (centreX n W i)) with 0 by (unfold curveSlope; field; exact HW').
  replace (curveDepth W 0 (centreX n W i)) with 0 by (unfold curveDepth; field; exact HW').
  rewrite atan_0, cos_0. unfold centreX.
  do 2 f_equal.
  - do 2 f_equal. ring.
  - f_equal. f_equal. field. apply INR_pos_neq; exact Hn.
Qed.

Lemma zero_curve_is_flat_witness :
  let options := mkOptions (Vector3.create (Num 8) (Num 5.2) (Num 8))
                   (Quaternion.fromEulerDegrees (Num 0) (Num 0) (Num 0))
                   (Vector3.create (Num 1) (Num 1) (Num 1))
                   (VideoTexture 1%nat) (Some (Num 0)) in
  let out := createCurvedScreen options (mkEngine 2%nat ∅ ∅ ∅) in
  transforms (snd out) !! segmentEntityOf (fst out) 4
  = Some {| tf_parent := Some (fst out);
            tf_position :=
              Vector3.create (Num (- 16 / 2 + (INR 4 + 0.5) * (16 / INR 22))) (Num 0) (Num 0);
            tf_rotation := Quaternion.fromEulerDegrees (Num 0) (Num 0) (Num 0);
            tf_scale := Vector3.create (Num (16 / INR 22)) (Num 9) (Num 0.1) |}.
Proof.
  cbv zeta.
  apply (zero_curve_is_flat 22 16 9 _ _ 4); [lia | lra | reflexivity].
Defined.

(** X11: a larger curve factor never makes the screen shallower.  Raising
    [curveFactor] leaves the [x] of every segment where it is and does not
    lower its depth. *)
Theorem deeper_with_larger_factor (n : nat) (W cf cf' : R) (i : nat) :
  (0 < n)%nat -> 0 < W -> cf <= cf' ->
  exists x z z' : R,
    st_position (calculateSegmentTransform n (Num W) (Num cf) (ofNat i))
    = Vector3.create (Num x) (Num 0) (Num z)
    /\ st_position (calculateSegmentTransform n (Num W) (Num cf') (ofNat i))
       = Vector3.create (Num x) (Num 0) (Num z')
    /\ z <= z'.
Proof.
  intros Hn HW Hcf.
  assert (HW' : W <> 0) by lra.
  rewrite !calculateSegmentTransform_finite by assumption.
  cbn [st_position].
  exists (centreX n W i), (curveDepth W cf (centreX n W i)),
    (curveDepth W cf' (centreX n W i)).
  split; [reflexivity |]. split; [reflexivity |].
  rewrite !curveDepth_alt by exact HW'.
  set (x := centreX n W i).
  assert (Hinv : 0 < / W) by (apply Rinv_0_lt_compat; exact HW).
  assert (Hx2 : 0 <= x * x) by nra.
  unfold Rdiv. apply Rmult_le_compat_r; [lra |].
  apply Rmult_le_compat_r; assumption.
Qed.

Lemma deeper_with_larger_factor_witness :
  exists x z z' : R,
    st_position (calculateSegmentTransform 22 (Num 16) (Num 0.3) (ofNat 2))
    = Vector3.create (Num x) (Num 0) (Num z)
    /\ st_position (calculateSegmentTransform 22 (Num 16) (Num 0.4) (ofNat 2))
       = Vector3.create (Num x) (Num 0) (Num z')
    /\ z <= z'.
Proof.
  apply (deeper_with_larger_factor 22 16 0.3 0.4 2); [lia | lra | lra].
Defined.



(** X14: a [curveFactor] that is [NaN] is not rejected.  Every segment
    keeps its [x] and its height, but its depth, its yaw and its width are
    [NaN]. *)
Theorem nan_curve_factor_spreads (n : nat) (W H : R) (options : CurvedScreenOptions)
    (e : Engine) (i : nat) :
  (i < n)%nat ->
  curveFactor options = Some NaN ->
  let out := buildCurvedScreen n (Num W) (Num H) options e in
  transforms (snd out) !! segmentEntityOf (fst out) i
  = Some {| tf_parent := Some (fst out);
            tf_position :=
              Vector3.create (Num (- W / 2 + (INR i + 0.5) * (W / INR n))) (Num 0) NaN;
            tf_rotation := Quaternion.fromEulerDegrees (Num 0) NaN (Num 0);
            tf_scale := Vector3.create NaN (Num H) (Num 0.1) |}.
Proof.
  intros Hi Hcf. cbv zeta.
  assert (Hn : INR n <> 0) by (apply INR_pos_neq; lia).
  assert (H2 : 2 <> 0) by lra.
  replace (fst (buildCurvedScreen n (Num W) (Num H) options e)) with (nextEntity e)
    by reflexivity.
  rewrite buildCurvedScreen_segment_transform by exact Hi.
  unfold resolveCurveFactor. rewrite Hcf.
  unfold segmentTransform, calculateSegmentTransform, ofNat, Math.PI.
  cbn [st_position st_rotation st_angle].
  cbn [JsNumber.neg].
  rewrite (div_Num (- W) 2) by exact H2.
  rewrite (div_Num W (INR n)) by exact Hn.
  rewrite (div_Num 180 PI) by apply PI_neq0.
  cbn [JsNumber.add JsNumber.mul JsNumber.div Math.atan Math.cos JsNumber.neg].
  reflexivity.
Qed.

Lemma nan_curve_factor_spreads_witness :
  let options := mkOptions (Vector3.create (Num 8) (Num 5.2) (Num 8))
                   (Quaternion.fromEulerDegrees (Num 0) (Num 0) (Num 0))
                   (Vector3.create (Num 1) (Num 1) (Num 1))
                   (VideoTexture 1%nat) (Some NaN) in
  let out := createCurvedScreen options (mkEngine 2%nat ∅ ∅ ∅) in
  transforms (snd out) !! segmentEntityOf (fst out) 9
  = Some {| tf_parent := Some (fst out);
            tf_position :=
              Vector3.create (Num (- 16 / 2 + (INR 9 + 0.5) * (16 / INR 22))) (Num 0) NaN;
            tf_rotation := Quaternion.fromEulerDegrees (Num 0) NaN (Num 0);
            tf_scale := Vector3.create NaN (Num 9) (Num 0.1) |}.
Proof.
  cbv zeta.
  apply (nan_curve_factor_spreads 22 16 9 _ _ 9); [lia | reflexivity].
Defined.

(** ** More on the UV mapper *)

(** The whole list, for a positive count. *)
Lemma setUVsForSegment_finite (i n : nat) :
  (0 < n)%nat ->
  let uStart := (INR n - 1 - INR i) / INR n in
  let uEnd := (INR n - 1 - INR i + 1) / INR n in
  setUVsForSegment (ofNat i) (ofNat n)
  = replicate 32 (Num 0)
    ++ [ Num uEnd; Num 1; Num uStart; Num 1; Num uStart; Num 0; Num uEnd; Num 0 ]
    ++ replicate 8 (Num 0).
Proof.
  intros Hn. cbv zeta. unfold setUVsForSegment, ofNat.
  cbn [JsNumber.sub JsNumber.add JsNumber.neg].
  rewrite !div_Num by (apply INR_pos_neq; exact Hn).
  replace (INR n + - (1) + - INR i) with (INR n - 1 - INR i) by lra.
  reflexivity.
Qed.

(** X15: the UVs of a segment are texture coordinates.  For an index below
    the count, all 48 numbers are finite and between 0 and 1, and the strip
    of the visible face is a non-empty interval inside the texture. *)
Theorem uvs_are_texture_coordinates (i n : nat) :
  (i < n)%nat ->
  Forall inUnitInterval (setUVsForSegment (ofNat i) (ofNat n))
  /\ exists uStart uEnd : R,
       uRange (setUVsForSegment (ofNat i) (ofNat n)) = (Num uStart, Num uEnd)
       /\ 0 <= uStart /\ uStart < uEnd /\ uEnd <= 1.
Proof.
  intros Hi.
  assert (Hn : (0 < n)%nat) by lia.
  assert (Hpos : 0 < INR n) by (apply INR_pos; exact Hn).
  assert (Hi1 : INR i + 1 <= INR n).
  { rewrite <- S_INR. apply le_INR. lia. }
  assert (Hi0 : 0 <= INR i) by apply pos_INR.
  assert (Hinv : 0 < / INR n) by (apply Rinv_0_lt_compat; exact Hpos).
  assert (Hs : 0 <= (INR n - 1 - INR i) / INR n).
  { unfold Rdiv. apply Rmult_le_pos; lra. }
  assert (He : (INR n - 1 - INR i + 1) / INR n <= 1).
  { unfold Rdiv. apply Rmult_le_reg_r with (INR n); [exact Hpos |].
    rewrite Rmult_assoc, Rinv_l by lra. lra. }
  assert (Hd : (INR n - 1 - INR i + 1) / INR n - (INR n - 1 - INR i) / INR n = 1 / INR n).
  { field. lra. }
  assert (Hlt : 0 < 1 / INR n) by (unfold Rdiv; lra).
  split.
  - rewrite setUVsForSegment_finite by exact Hn. cbn [replicate app].
    repeat (apply Forall_cons; split; [cbn; lra |]). apply Forall_nil. exact I.
  - exists ((INR n - 1 - INR i) / INR n), ((INR n - 1 - INR i + 1) / INR n).
    split; [apply uRange_finite; exact Hn |]. repeat split; lra.
Qed.

Lemma uvs_are_texture_coordinates_witness :
  Forall inUnitInterval (setUVsForSegment (ofNat 21) (ofNat 22))
  /\ exists uStart uEnd : R,
       uRange (setUVsForSegment (ofNat 21) (ofNat 22)) = (Num uStart, Num uEnd)
       /\ 0 <= uStart /\ uStart < uEnd /\ uEnd <= 1.
Proof.
  apply (uvs_are_texture_coordinates 21 22). lia.
Defined.

(** X16: the strips run against the segments.  A segment further to the
    right (a larger index) shows a strip further to the left of the
    texture: for [i < j] the strip of [j] ends at or before the start of the
    strip of [i].  So no two segments show the same part of the picture. *)
Theorem strips_run_right_to_left (i j n : nat) :
  (i < j)%nat -> (j < n)%nat ->
  exists a b c d : R,
    uRange (setUVsForSegment (ofNat i) (ofNat n)) = (Num a, Num b)
    /\ uRange (setUVsForSegment (ofNat j) (ofNat n)) = (Num c, Num d)
    /\ c < d /\ d <= a /\ a < b.
Proof.
  intros Hij Hjn.
  assert (Hn : (0 < n)%nat) by lia.
  assert (Hpos : 0 < INR n) by (apply INR_pos; exact Hn).
  assert (Hinv : 0 < / INR n) by (apply Rinv_0_lt_compat; exact Hpos).
  assert (Hle : INR i + 1 <= INR j).
  { rewrite <- S_INR. apply le_INR. lia. }
  rewrite !uRange_finite by exact Hn.
  do 4 eexists. split; [reflexivity |]. split; [reflexivity |].
  unfold Rdiv. repeat split.
  - apply Rmult_lt_compat_r; lra.
  - apply Rmult_le_compat_r; lra.
  - apply Rmult_lt_compat_r; lra.
Qed.

Lemma strips_run_right_to_left_witness :
  exists a b c d : R,
    uRange (setUVsForSegment (ofNat 0) (ofNat 22)) = (Num a, Num b)
    /\ uRange (setUVsForSegment (ofNat 1) (ofNat 22)) = (Num c, Num d)
    /\ c < d /\ d <= a /\ a < b.
Proof.
  apply (strips_run_right_to_left 0 1 22); lia.
Defined.

(** X17: an index that is not below the count is not refused and not
    clamped: the strip it gets lies outside the texture, at or below 0. *)
Theorem index_out_of_range_leaves_texture (i n : nat) :
  (0 < n)%nat -> (n <= i)%nat ->
  exists uStart uEnd : R,
    uRange (setUVsForSegment (ofNat i) (ofNat n)) = (Num uStart, Num uEnd)
    /\ uStart < 0 /\ uEnd <= 0
    /\ ~ Forall inUnitInterval (setUVsForSegment (ofNat i) (ofNat n)).
Proof.
  intros Hn Hi.
  assert (Hpos : 0 < INR n) by (apply INR_pos; exact Hn).
  assert (Hinv : 0 < / INR n) by (apply Rinv_0_lt_compat; exact Hpos).
  assert (Hle : INR n <= INR i) by (apply le_INR; exact Hi).
  assert (Hs : (INR n - 1 - INR i) / INR n < 0).
  { unfold Rdiv. replace 0 with (0 * / INR n) by ring.
    apply Rmult_lt_compat_r; lra. }
  assert (He : (INR n - 1 - INR i + 1) / INR n <= 0).
  { unfold Rdiv. replace 0 with (0 * / INR n) by ring.
    apply Rmult_le_compat_r; lra. }
  do 2 eexists. split; [apply uRange_finite; exact Hn |].
  split; [exact Hs |]. split; [exact He |].
  rewrite setUVsForSegment_finite by exact Hn. intros Hall.
  apply Forall_app in Hall. destruct Hall as [_ Hall].
  apply Forall_cons in Hall. destruct Hall as [_ Hall].
  apply Forall_cons in Hall. destruct Hall as [_ Hall].
  apply Forall_cons in Hall. destruct Hall as [Hbad _].
  cbn in Hbad. lra.
Qed.

Lemma index_out_of_range_leaves_texture_witness :
  exists uStart uEnd : R,
    uRange (setUVsForSegment (ofNat 22) (ofNat 22)) = (Num uStart, Num uEnd)
    /\ uStart < 0 /\ uEnd <= 0
    /\ ~ Forall inUnitInterval (setUVsForSegment (ofNat 22) (ofNat 22)).
Proof.
  apply (index_out_of_range_leaves_texture 22 22); lia.
Defined.

(** The visible face of the guide's mapper, for a positive count. *)
Lemma guide_visibleFace_finite (j n : nat) :
  (0 < n)%nat ->
  visibleFace (Guide.setUVsForSegment (ofNat j) (ofNat n))
  = [ (Num (INR j / INR n), Num 1); (Num ((INR j + 1) / INR n), Num 1);
      (Num ((INR j + 1) / INR n), Num 0); (Num (INR j / INR n), Num 0) ].
Proof.
  intros Hn. unfold visibleFace, face, Guide.setUVsForSegment, ofNat.
  cbn [Nat.mul Nat.add drop take corners].
  cbn [JsNumber.add].
  rewrite !div_Num by (apply INR_pos_neq; exact Hn).
  reflexivity.
Qed.

(** X18: what the two fixes do.  The visible face of segment [i] is the
    mirror image of the face the guide's first version of the mapper gives
    to segment [n - 1 - i]: the strips are handed out in the opposite order
    ("FIX 1") and each is flipped left to right ("FIX 2").  The five other
    faces are the same in both versions. *)
Theorem fixes_reverse_and_mirror (i n : nat) :
  (i < n)%nat ->
  visibleFace (setUVsForSegment (ofNat i) (ofNat n))
  = mirrorQuad (visibleFace (Guide.setUVsForSegment (ofNat (n - 1 - i)) (ofNat n)))
  /\ take 32 (setUVsForSegment (ofNat i) (ofNat n))
     = take 32 (Guide.setUVsForSegment (ofNat (n - 1 - i)) (ofNat n))
  /\ drop 40 (setUVsForSegment (ofNat i) (ofNat n))
     = drop 40 (Guide.setUVsForSegment (ofNat (n - 1 - i)) (ofNat n))
  /\ length (Guide.setUVsForSegment (ofNat (n - 1 - i)) (ofNat n)) = 48%nat.
Proof.
  intros Hi. assert (Hn : (0 < n)%nat) by lia.
  split; [| repeat split].
  rewrite visibleFace_finite, guide_visibleFace_finite by exact Hn.
  cbn [mirrorQuad].
  assert (Hrev : INR (n - 1 - i) = INR n - 1 - INR i).
  { rewrite !minus_INR by lia. simpl. lra. }
  rewrite Hrev. reflexivity.
Qed.

Lemma fixes_reverse_and_mirror_witness :
  visibleFace (setUVsForSegment (ofNat 0) (ofNat 22))
  = mirrorQuad (visibleFace (Guide.setUVsForSegment (ofNat (22 - 1 - 0)) (ofNat 22)))
  /\ take 32 (setUVsForSegment (ofNat 0) (ofNat 22))
     = take 32 (Guide.setUVsForSegment (ofNat (22 - 1 - 0)) (ofNat 22))
  /\ drop 40 (setUVsForSegment (ofNat 0) (ofNat 22))
     = drop 40 (Guide.setUVsForSegment (ofNat (22 - 1 - 0)) (ofNat 22))
  /\ length (Guide.setUVsForSegment (ofNat (22 - 1 - 0)) (ofNat 22)) = 48%nat.
Proof.
  apply (fixes_reverse_and_mirror 0 22). lia.
Defined.

(** X19: a count that is not a finite number ([NaN] or an infinity) is
    not refused either: whatever the finite index, both bounds of the strip
    are [NaN]. *)
Theorem non_finite_count_gives_nan (r : R) (totalSegments : number) :
  ~ JsNumber.isFinite totalSegments ->
  visibleFace (setUVsForSegment (Num r) totalSegments)
  = [ (NaN, Num 1); (NaN, Num 1); (NaN, Num 0); (NaN, Num 0) ].
Proof.
  intros Hnf. destruct totalSegments as [t | | |].
  - exfalso. apply Hnf. exact I.
  - reflexivity.
  - reflexivity.
  - reflexivity.
Qed.

Lemma non_finite_count_gives_nan_witness :
  visibleFace (setUVsForSegment (Num 3) PosInfinity)
  = [ (NaN, Num 1); (NaN, Num 1); (NaN, Num 0); (NaN, Num 0) ].
Proof.
  apply (non_finite_count_gives_nan 3 PosInfinity). simpl. intros F. exact F.
Defined.

(** ** The scene file *)

(** [main], step by step. *)
Lemma main_core (s : Scene) :
  main s
  = mkScene
      (mkEngine (S (nextEntity (engineAfterScreen s)))
         (<[nextEntity (engineAfterScreen s) := defaultTransform]>
            (transforms (engineAfterScreen s)))
         (boxes (engineAfterScreen s)) (materials (engineAfterScreen s)))
      (<[nextEntity (engineAfterScreen s) := "models/ground_2x2.glb"%string]>
         (<[nextEntity (core s) := "models/curved_screen.glb"%string]> (gltfContainers s)))
      (<[S (nextEntity (core s)) := mkVideoPlayer videoStreamUrl true true]>
         (videoPlayers s)).
Proof.
  unfold engineAfterScreen, engineBeforeScreen, main.
  generalize createCurvedScreen. intros build.
  unfold onEngine.
  cbn [engine.addEntity core gltfContainers videoPlayers GltfContainer.create
       VideoPlayer.create snd fst Transform.create nextEntity transforms boxes materials].
  destruct (build _ _) as [p e3].
  reflexivity.
Qed.

Lemma main_nextEntity (s : Scene) :
  nextEntity (core (main s)) = S (nextEntity (engineAfterScreen s)).
Proof.
  pose proof (main_core s) as E.
  generalize dependent (engineAfterScreen s). intros e3 E.
  rewrite E. reflexivity.
Qed.

Lemma main_transforms (s : Scene) :
  transforms (core (main s))
  = <[nextEntity (engineAfterScreen s) := defaultTransform]>
      (transforms (engineAfterScreen s)).
Proof.
  pose proof (main_core s) as E.
  generalize dependent (engineAfterScreen s). intros e3 E.
  rewrite E. reflexivity.
Qed.

Lemma main_boxes (s : Scene) :
  boxes (core (main s)) = boxes (engineAfterScreen s).
Proof.
  pose proof (main_core s) as E.
  generalize dependent (engineAfterScreen s). intros e3 E.
  rewrite E. reflexivity.
Qed.

Lemma main_materials (s : Scene) :
  materials (core (main s)) = materials (engineAfterScreen s).
Proof.
  pose proof (main_core s) as E.
  generalize dependent (engineAfterScreen s). intros e3 E.
  rewrite E. reflexivity.
Qed.

Lemma main_gltfContainers (s : Scene) :
  gltfContainers (main s)
  = <[nextEntity (engineAfterScreen s) := "models/ground_2x2.glb"%string]>
      (<[nextEntity (core s) := "models/curved_screen.glb"%string]> (gltfContainers s)).
Proof.
  pose proof (main_core s) as E.
  generalize dependent (engineAfterScreen s). intros e3 E.
  rewrite E. reflexivity.
Qed.

Lemma main_videoPlayers (s : Scene) :
  videoPlayers (main s)
  = <[S (nextEntity (core s)) := mkVideoPlayer videoStreamUrl true true]> (videoPlayers s).
Proof.
  pose proof (main_core s) as E.
  generalize dependent (engineAfterScreen s). intros e3 E.
  rewrite E. reflexivity.
Qed.

Lemma engineBeforeScreen_nextEntity (s : Scene) :
  nextEntity (engineBeforeScreen s) = (nextEntity (core s) + 2)%nat.
Proof. unfold engineBeforeScreen. cbn [nextEntity]. lia. Qed.

Lemma engineAfterScreen_nextEntity (s : Scene) :
  nextEntity (engineAfterScreen s) = (nextEntity (core s) + 25)%nat.
Proof.
  unfold engineAfterScreen, createCurvedScreen.
  rewrite buildCurvedScreen_nextEntity, engineBeforeScreen_nextEntity. lia.
Qed.

(** X20: what the scene file sets up.  Whatever the scene held before,
    [main] makes 26 entities: the frame model, the video player (playing,
    looping), the screen parent at its place in the frame, the 22 segments
    and the ground.  Every segment is a child of the screen parent, is a box
    with the UVs of its index, and shows, as texture and as emissive
    texture, the video of the player [main] made. *)
Theorem main_sets_up_the_screen (s : Scene) (i : nat) :
  (i < 22)%nat ->
  let base := nextEntity (core s) in
  let s' := main s in
  nextEntity (core s') = (base + 26)%nat
  /\ gltfContainers s' !! base = Some "models/curved_screen.glb"%string
  /\ gltfContainers s' !! (base + 25)%nat = Some "models/ground_2x2.glb"%string
  /\ videoPlayers s' !! (base + 1)%nat = Some (mkVideoPlayer videoStreamUrl true true)
  /\ transforms (core s') !! (base + 2)%nat
     = Some (mkTransform None
               (Vector3.create (Num 0.875) (Num 5.3) (Num 16))
               (Quaternion.fromEulerDegrees (Num 0) (Num 90) (Num 0))
               (Vector3.create (Num 1) (Num 1) (Num 1)))
  /\ (exists t : TransformType,
        transforms (core s') !! (base + 3 + i)%nat = Some t
        /\ tf_parent t = Some (base + 2)%nat)
  /\ boxes (core s') !! (base + 3 + i)%nat
     = Some (setUVsForSegment (ofNat i) (ofNat 22))
  /\ (exists m : PbrMaterial,
        materials (core s') !! (base + 3 + i)%nat = Some m
        /\ texture m = VideoTexture (base + 1)%nat
        /\ emissiveTexture m = VideoTexture (base + 1)%nat).
Proof.
  intros Hi. cbv zeta.
  rewrite main_nextEntity, main_transforms, main_boxes, main_materials,
    main_gltfContainers, main_videoPlayers.
  rewrite !engineAfterScreen_nextEntity.
  pose proof (engineBeforeScreen_nextEntity s) as Hbefore.
  assert (Hseg : (nextEntity (core s) + 3 + i)%nat
                 = segmentEntityOf (nextEntity (engineBeforeScreen s)) i).
  { unfold segmentEntityOf. rewrite Hbefore. lia. }
  replace (nextEntity (core s) + 1)%nat with (S (nextEntity (core s))) by lia.
  unfold engineAfterScreen, createCurvedScreen.
  generalize dependent (engineBeforeScreen s). intros e2 Hbefore Hseg.
  generalize dependent (nextEntity (core s)). intros base Hbefore Hseg.
  split; [lia |].
  split.
  { rewrite lookup_insert_ne by lia. apply lookup_insert_eq. }
  split; [apply lookup_insert_eq |].
  split; [apply lookup_insert_eq |].
  split.
  { rewrite lookup_insert_ne by lia. rewrite <- Hbefore.
    rewrite buildCurvedScreen_parent_transform. reflexivity. }
  split.
  { rewrite lookup_insert_ne by lia. rewrite Hseg.
    rewrite buildCurvedScreen_segment_transform by exact Hi.
    eexists. split; [reflexivity |]. unfold segmentTransform. cbn [tf_parent].
    rewrite Hbefore. reflexivity. }
  split.
  { rewrite Hseg. apply buildCurvedScreen_segment_box. exact Hi. }
  rewrite Hseg. rewrite buildCurvedScreen_segment_material by exact Hi.
  eexists. split; [reflexivity |]. split; reflexivity.
Qed.

Lemma main_sets_up_the_screen_witness :
  let s := mkScene (mkEngine 512%nat ∅ ∅ ∅) ∅ ∅ in
  let base := nextEntity (core s) in
  let s' := main s in
  nextEntity (core s') = (base + 26)%nat
  /\ gltfContainers s' !! base = Some "models/curved_screen.glb"%string
  /\ gltfContainers s' !! (base + 25)%nat = Some "models/ground_2x2.glb"%string
  /\ videoPlayers s' !! (base + 1)%nat = Some (mkVideoPlayer videoStreamUrl true true)
  /\ transforms (core s') !! (base + 2)%nat
     = Some (mkTransform None
               (Vector3.create (Num 0.875) (Num 5.3) (Num 16))
               (Quaternion.fromEulerDegrees (Num 0) (Num 90) (Num 0))
               (Vector3.create (Num 1) (Num 1) (Num 1)))
  /\ (exists t : TransformType,
        transforms (core s') !! (base + 3 + 21)%nat = Some t
        /\ tf_parent t = Some (base + 2)%nat)
  /\ boxes (core s') !! (base + 3 + 21)%nat
     = Some (setUVsForSegment (ofNat 21) (ofNat 22))
  /\ (exists m : PbrMaterial,
        materials (core s') !! (base + 3 + 21)%nat = Some m
        /\ texture m = VideoTexture (base + 1)%nat
        /\ emissiveTexture m = VideoTexture (base + 1)%nat).
Proof.
  cbv zeta.
  apply (main_sets_up_the_screen (mkScene (mkEngine 512%nat ∅ ∅ ∅) ∅ ∅) 21). lia.
Defined.
